(** * AI-Meeting-Assistant: the capture path of [Audio.py] and the
      normalisation step of [pipeline.py]

    A shallow embedding of [AudioCapture] (device resolution, the
    per-block [callback] closure of [start_capture], [stop]) and of
    [ConferenceAssistant.process_audio_chunk_immediate].

    Numbers.  Samples and device timestamps are Python/NumPy floats in the
    source; here they are exact rationals ([Q]), so every comparison is the
    comparison of the real numbers the floats stand for and rounding is not
    modelled.  The square root of the RMS is taken in the real numbers
    ([R]) and related to an executable test on rationals. *)

From Stdlib Require Import List ZArith QArith Qabs Qminmax Bool String Ascii Lia.
From Stdlib Require Import Reals Qreals Lra.
Import ListNotations.

Local Open Scope Z_scope.
Local Open Scope Q_scope.

(** ** Comparisons on rationals, as booleans *)

(** [a > b] on floats. *)
Definition Qgtb (a b : Q) : bool := negb (Qle_bool a b).

(** ** The part of NumPy the source uses *)

Module np.

(** The [indata] array handed to a stream callback: one-dimensional, or
    two-dimensional of shape [(frames, channels)] with element [(i, j)]
    given by [at i j]. *)
Inductive ndarray : Type :=
| Arr1 (data : list Q)
| Arr2 (frames channels : nat) (at_ : nat -> nat -> Q).


(** [a.size]: the number of elements. *)
Definition size (a : ndarray) : nat :=
  match a with
  | Arr1 data => List.length data
  | Arr2 frames channels _ => (frames * channels)%nat
  end.

(** [xs.sum()]; the running total is kept in lowest terms, which changes
    its representation and not its value. *)
Definition sum (xs : list Q) : Q :=
  fold_right (fun x total => Qred (x + total)) 0 xs.

(** [xs.mean()] of a one-dimensional array. *)
Definition mean (xs : list Q) : Q :=
  sum xs / inject_Z (Z.of_nat (List.length xs)).

(** Row [i] of a two-dimensional array. *)
Definition row (channels : nat) (at_ : nat -> nat -> Q) (i : nat) : list Q :=
  map (at_ i) (seq 0 channels).

(** [a.mean(axis=1)]: the mean over the channels, one value per frame. *)
Definition mean_axis1 (frames channels : nat) (at_ : nat -> nat -> Q) : list Q :=
  map (fun i => mean (row channels at_ i)) (seq 0 frames).

(** [a.flatten()]: row-major. *)
Definition flatten (a : ndarray) : list Q :=
  match a with
  | Arr1 data => data
  | Arr2 frames channels at_ => flat_map (row channels at_) (seq 0 frames)
  end.

(** [xs**2], element-wise. *)
Definition square (xs : list Q) : list Q := map (fun x => x * x) xs.

(** [np.abs(xs)], element-wise. *)
Definition abs (xs : list Q) : list Q := map Qabs xs.

(** [xs.max()]; NumPy raises on an empty array, hence the option. *)
Definition max (xs : list Q) : option Q :=
  match xs with
  | [] => None
  | x :: rest => Some (fold_left Qmax rest x)
  end.

(** [np.concatenate(blocks)] of one-dimensional arrays. *)
Definition concatenate (blocks : list (list Q)) : list Q := List.concat blocks.


(** The executable form of [np.sqrt(np.mean(xs**2)) > threshold] for a
    threshold that is not negative: compare the mean square with the
    square of the threshold.  [rms_gt_spec] below relates it to [rms]. *)
Definition rms_gt (xs : list Q) (threshold : Q) : bool :=
  Qgtb (mean (square xs)) (threshold * threshold).

End np.

(** ** [queue.Queue] *)

Module queue.

(** A [queue.Queue(maxsize)]: FIFO, the head of [items] is the oldest.
    A [maxsize] of zero or less means the queue is unbounded. *)
Record Queue (A : Type) : Type := mkQueue {
  maxsize : Z;
  items : list A
}.
Arguments mkQueue {A} _ _.
Arguments maxsize {A} _.
Arguments items {A} _.

(** [queue.Queue()] *)
Definition new (A : Type) : Queue A := mkQueue 0%Z [].

Definition qsize {A} (q : Queue A) : Z := Z.of_nat (List.length (items q)).

Definition full {A} (q : Queue A) : bool :=
  ((0 <? maxsize q) && (maxsize q <=? qsize q))%Z.

(** [q.put_nowait(x)]; [None] is the exception [queue.Full]. *)
Definition put_nowait {A} (q : Queue A) (x : A) : option (Queue A) :=
  if full q then None else Some (mkQueue (maxsize q) (items q ++ [x])).

(** [q.get_nowait()]; [None] is the exception [queue.Empty]. *)
Definition get_nowait {A} (q : Queue A) : option (A * Queue A) :=
  match items q with
  | [] => None
  | x :: rest => Some (x, mkQueue (maxsize q) rest)
  end.

End queue.

(** ** Device resolution: [AudioCapture.find_audio_device] *)

(** One entry of [sd.query_devices()]. *)
Record DeviceInfo : Type := mkDevice {
  name : string;
  max_input_channels : Z
}.

(** [str.lower()] on the ASCII letters. *)
Definition lower_ascii (c : ascii) : ascii :=
  let n := nat_of_ascii c in
  if ((65 <=? n) && (n <=? 90))%nat then ascii_of_nat (n + 32) else c.

Fixpoint lower (s : string) : string :=
  match s with
  | EmptyString => EmptyString
  | String c rest => String (lower_ascii c) (lower rest)
  end.

(** [p in s] on strings. *)
Fixpoint str_in (p s : string) : bool :=
  String.prefix p s ||
  match s with
  | EmptyString => false
  | String _ rest => str_in p rest
  end.

Definition patterns : list string :=
  ["monitor"; "loopback"; "virtual"; "alsa"]%string.

(** The test of the monitor loop:
    [any(p in name for p in patterns) and dev['max_input_channels'] > 0]. *)
Definition is_monitor (dev : DeviceInfo) : bool :=
  existsb (fun p => str_in p (lower (name dev))) patterns
  && (0 <? max_input_channels dev)%Z.

Definition has_input (dev : DeviceInfo) : bool :=
  (0 <? max_input_channels dev)%Z.

(** [for i, dev in enumerate(devices): if test(dev): return i], counting
    from [i]. *)
Fixpoint first_index (test : DeviceInfo -> bool) (devices : list DeviceInfo)
    (i : Z) : option Z :=
  match devices with
  | [] => None
  | dev :: rest => if test dev then Some i else first_index test rest (i + 1)%Z
  end.

(** [devices[k]] with Python's indexing: negative indices count from the
    end; [None] is [IndexError]. *)
Definition py_index {A} (l : list A) (k : Z) : option A :=
  let n := Z.of_nat (List.length l) in
  if (0 <=? k)%Z then nth_error l (Z.to_nat k)
  else if (- n <=? k)%Z then nth_error l (Z.to_nat (n + k))
  else None.

(** The body of the [try] of [find_audio_device]: [device_id] is
    [self.device_id], [devices] the result of [sd.query_devices()] and
    [default] the value of [sd.default.device[1]].  The outer [None] is a
    raised exception, the inner one the value [None]. *)
Definition find_audio_device_try (device_id : option Z)
    (devices : list DeviceInfo) (default : option Z) : option (option Z) :=
  let requested : option (option Z) :=
    match device_id with
    | Some id =>
        if ((0 <=? id) && (id <? Z.of_nat (List.length devices)))%Z then
          match py_index devices id with
          | Some dev =>
              if (0 <? max_input_channels dev)%Z then Some (Some id)
              else Some None
          | None => None
          end
        else Some None
    | None => Some None
    end in
  match requested with
  | None => None
  | Some (Some id) => Some (Some id)
  | Some None =>
      match first_index is_monitor devices 0 with
      | Some i => Some (Some i)
      | None =>
          match default with
          | Some d =>
              (* the message printed here reads [devices[default]['name']] *)
              match py_index devices d with
              | Some _ => Some (Some d)
              | None => None
              end
          | None => Some (first_index has_input devices 0)
          end
      end
  end.

(** [find_audio_device]: the handler of the [try] returns [None]. *)
Definition find_audio_device (device_id : option Z) (devices : list DeviceInfo)
    (default : option Z) : option Z :=
  match find_audio_device_try device_id devices default with
  | Some result => result
  | None => None
  end.

(** ** [AudioCapture] *)

(** An [sd.InputStream]: constructed, started, or stopped and closed. *)
Inductive stream_state : Type := StreamOpened | StreamActive | StreamClosed.
(** The consumer task made by [loop.create_task]. *)
Inductive task_state : Type := TaskPending | TaskCancelled.

(** The attributes of an [AudioCapture]; [sample_rate] is
    [self.config.sample_rate], the rate the stream is opened with. *)
Record AudioCapture : Type := mkAudioCapture {
  sample_rate : positive;
  stream : option stream_state;
  is_capturing : bool;
  audio_queue : queue.Queue (list Q);
  process_task : option task_state;
  device_id : option Z;
  audio_buffer : list (list Q);
  buffer_start_time : option Q;
  last_voice_time : option Q;
  silence_start_time : option Q;
  is_recording : bool
}.

(** [AudioCapture.__init__] *)
Definition init (rate : positive) : AudioCapture :=
  {| sample_rate := rate;
     stream := None;
     is_capturing := false;
     audio_queue := queue.new (list Q);
     process_task := None;
     device_id := None;
     audio_buffer := [];
     buffer_start_time := None;
     last_voice_time := None;
     silence_start_time := None;
     is_recording := false |}.

(** Assignments to one attribute. *)
Definition set_stream (v : option stream_state) (self : AudioCapture) :=
  mkAudioCapture (sample_rate self) v (is_capturing self) (audio_queue self)
    (process_task self) (device_id self) (audio_buffer self)
    (buffer_start_time self) (last_voice_time self) (silence_start_time self)
    (is_recording self).

Definition set_is_capturing (v : bool) (self : AudioCapture) :=
  mkAudioCapture (sample_rate self) (stream self) v (audio_queue self)
    (process_task self) (device_id self) (audio_buffer self)
    (buffer_start_time self) (last_voice_time self) (silence_start_time self)
    (is_recording self).

Definition set_audio_queue (v : queue.Queue (list Q)) (self : AudioCapture) :=
  mkAudioCapture (sample_rate self) (stream self) (is_capturing self) v
    (process_task self) (device_id self) (audio_buffer self)
    (buffer_start_time self) (last_voice_time self) (silence_start_time self)
    (is_recording self).

Definition set_process_task (v : option task_state) (self : AudioCapture) :=
  mkAudioCapture (sample_rate self) (stream self) (is_capturing self)
    (audio_queue self) v (device_id self) (audio_buffer self)
    (buffer_start_time self) (last_voice_time self) (silence_start_time self)
    (is_recording self).

Definition set_audio_buffer (v : list (list Q)) (self : AudioCapture) :=
  mkAudioCapture (sample_rate self) (stream self) (is_capturing self)
    (audio_queue self) (process_task self) (device_id self) v
    (buffer_start_time self) (last_voice_time self) (silence_start_time self)
    (is_recording self).

Definition set_buffer_start_time (v : option Q) (self : AudioCapture) :=
  mkAudioCapture (sample_rate self) (stream self) (is_capturing self)
    (audio_queue self) (process_task self) (device_id self) (audio_buffer self)
    v (last_voice_time self) (silence_start_time self) (is_recording self).

Definition set_last_voice_time (v : option Q) (self : AudioCapture) :=
  mkAudioCapture (sample_rate self) (stream self) (is_capturing self)
    (audio_queue self) (process_task self) (device_id self) (audio_buffer self)
    (buffer_start_time self) v (silence_start_time self) (is_recording self).

Definition set_silence_start_time (v : option Q) (self : AudioCapture) :=
  mkAudioCapture (sample_rate self) (stream self) (is_capturing self)
    (audio_queue self) (process_task self) (device_id self) (audio_buffer self)
    (buffer_start_time self) (last_voice_time self) v (is_recording self).

Definition set_is_recording (v : bool) (self : AudioCapture) :=
  mkAudioCapture (sample_rate self) (stream self) (is_capturing self)
    (audio_queue self) (process_task self) (device_id self) (audio_buffer self)
    (buffer_start_time self) (last_voice_time self) (silence_start_time self) v.

Definition set_device_id (v : option Z) (self : AudioCapture) :=
  mkAudioCapture (sample_rate self) (stream self) (is_capturing self)
    (audio_queue self) (process_task self) v (audio_buffer self)
    (buffer_start_time self) (last_voice_time self) (silence_start_time self)
    (is_recording self).

(** *** The [callback] closure of [start_capture] *)

Definition VOICE_THRESHOLD : Q := 2 # 100.

(** The hysteresis, [1.0] seconds, and the minimum duration, [0.3]. *)
Definition SILENCE_LIMIT : Q := 1.
Definition MIN_DURATION : Q := 3 # 10.

(** The mono block:
    [indata.mean(axis=1) if indata.ndim > 1 and indata.shape[1] > 1
     else indata.flatten()]. *)
Definition audio_mono_of (indata : np.ndarray) : list Q :=
  match indata with
  | np.Arr2 frames channels at_ =>
      if (1 <? channels)%nat then np.mean_axis1 frames channels at_
      else np.flatten indata
  | np.Arr1 _ => np.flatten indata
  end.

(** [len(samples) / self.config.sample_rate] *)
Definition duration_of (self : AudioCapture) (samples : list Q) : Q :=
  inject_Z (Z.of_nat (List.length samples)) / inject_Z (Z.pos (sample_rate self)).

(** The hand-off in the callback:
    [try: put_nowait(x)
     except queue.Full:
         try: get_nowait(); put_nowait(x)
         except: pass] *)
Definition put_drop_oldest {A} (q : queue.Queue A) (x : A) : queue.Queue A :=
  match queue.put_nowait q x with
  | Some q' => q'
  | None =>
      match queue.get_nowait q with
      | Some (_, q1) =>
          match queue.put_nowait q1 x with
          | Some q2 => q2
          | None => q1
          end
      | None => q
      end
  end.

(** One call of [callback(indata, frames, time_info, status)], with
    [current_time] the value of [time_info.inputBufferAdcTime].  The
    [status] argument only drives a message. *)
Definition callback (self : AudioCapture) (indata : np.ndarray)
    (current_time : Q) : AudioCapture :=
  if (0 <? np.size indata)%nat then
    let audio_mono := audio_mono_of indata in
    if np.rms_gt audio_mono VOICE_THRESHOLD then
      let self :=
        if negb (is_recording self) then
          set_silence_start_time None
            (set_last_voice_time (Some current_time)
               (set_buffer_start_time (Some current_time)
                  (set_audio_buffer []
                     (set_is_recording true self))))
        else self in
      let self := set_last_voice_time (Some current_time) self in
      let self := set_silence_start_time None self in
      set_audio_buffer (audio_buffer self ++ [audio_mono]) self
    else
      if is_recording self then
        let started :=
          match silence_start_time self with
          | None => current_time
          | Some s => s
          end in
        let self := set_silence_start_time (Some started) self in
        let silence_duration := current_time - started in
        if (0 <? List.length (audio_buffer self))%nat
           && Qgtb silence_duration SILENCE_LIMIT then
          let combined_audio := np.concatenate (audio_buffer self) in
          let buffer_duration := duration_of self combined_audio in
          let self :=
            if Qgtb buffer_duration MIN_DURATION then
              set_audio_queue
                (put_drop_oldest (audio_queue self) combined_audio) self
            else self in
          set_silence_start_time None
            (set_audio_buffer []
               (set_is_recording false self))
        else
          set_audio_buffer (audio_buffer self ++ [audio_mono]) self
      else self
  else self.

(** The callback over a sequence of blocks, in arrival order. *)
Fixpoint run (self : AudioCapture) (blocks : list (np.ndarray * Q))
    : AudioCapture :=
  match blocks with
  | [] => self
  | (indata, current_time) :: rest => run (callback self indata current_time) rest
  end.

(** *** [AudioCapture.stop] *)

(** [stop]; the calls [stream.stop()] and [stream.close()] sit in a
    [try] whose handler passes, so whatever they do on a stream that is
    closed already, [stop] goes on and the stream is closed afterwards. *)
Definition stop (self : AudioCapture) : AudioCapture :=
  let self := set_is_capturing false self in
  let self :=
    if is_recording self && (0 <? List.length (audio_buffer self))%nat then
      let combined_audio := np.concatenate (audio_buffer self) in
      if (0 <? List.length combined_audio)%nat then
        match queue.put_nowait (audio_queue self) combined_audio with
        | Some q => set_audio_queue q self
        | None => self                       (* except: pass *)
        end
      else self
    else self in
  let self :=
    match process_task self with
    | Some TaskPending => set_process_task (Some TaskCancelled) self
    | _ => self
    end in
  match stream self with
  | Some _ => set_stream (Some StreamClosed) self
  | None => self
  end.

(** *** [AudioCapture.start_capture] *)

(** What [sd.InputStream(...)] and [stream.start()] do. *)
Inductive open_outcome : Type := OpenRaises | StartRaises | Started.

(** [start_capture], with the state of the device layer as arguments; the
    boolean is the value returned. *)
Definition start_capture (self : AudioCapture) (devices : list DeviceInfo)
    (default : option Z) (outcome : open_outcome) : AudioCapture * bool :=
  match find_audio_device (device_id self) devices default with
  | None => (self, false)
  | Some _ =>
      match outcome with
      | OpenRaises => (self, false)
      | StartRaises => (set_stream (Some StreamOpened) self, false)
      | Started =>
          (set_process_task (Some TaskPending)
             (set_is_capturing true
                (set_stream (Some StreamActive) self)), true)
      end
  end.

(** *** The consumer side: one round of [process_audio_queue] *)

(** [audio_queue.get(timeout=0.1)]: the oldest pending item, if any, is
    taken out; it is forwarded when it is not empty. *)
Definition consumer_get (self : AudioCapture) : option (list Q) * AudioCapture :=
  if is_capturing self then
    match queue.get_nowait (audio_queue self) with
    | Some (audio_data, q) =>
        (if (0 <? List.length audio_data)%nat then Some audio_data else None,
         set_audio_queue q self)
    | None => (None, self)
    end
  else (None, self).

(** ** [ConferenceAssistant.process_audio_chunk_immediate] *)

(** The arguments of the call of [_transcribe_and_display_immediate], or
    [None] when the method returns before it. *)
Definition process_audio_chunk_immediate (is_running : bool) (rate : positive)
    (audio_data : list Q) : option (list Q * Q) :=
  if negb is_running || (List.length audio_data =? 0)%nat then None
  else
    let duration :=
      inject_Z (Z.of_nat (List.length audio_data)) / inject_Z (Z.pos rate) in
    match np.max (np.abs audio_data) with
    | None => None
    | Some max_val =>
        let audio_data :=
          if Qgtb max_val 0 then map (fun x => x / max_val) audio_data
          else audio_data in
        Some (audio_data, duration)
    end.

(** ** The states an [AudioCapture] goes through *)

Inductive reachable : AudioCapture -> Prop :=
| reach_init (rate : positive) :
    reachable (init rate)
| reach_device_id (self : AudioCapture) (id : option Z) :
    reachable self -> reachable (set_device_id id self)
| reach_start (self : AudioCapture) devices default outcome :
    reachable self -> reachable (fst (start_capture self devices default outcome))
| reach_callback (self : AudioCapture) indata current_time :
    reachable self -> reachable (callback self indata current_time)
| reach_consumer (self : AudioCapture) :
    reachable self -> reachable (snd (consumer_get self))
| reach_stop (self : AudioCapture) :
    reachable self -> reachable (stop self).

(** ** Blocks for the scenarios *)

(** A mono block of 800 samples (50 ms at 16 kHz), all equal to
    [amplitude]; its RMS is the absolute value of [amplitude]. *)
Definition constant_block (amplitude : Q) : np.ndarray :=
  np.Arr2 800 1 (fun _ _ => amplitude).

Definition speech_block : np.ndarray := constant_block (5 # 100).
Definition silence_block : np.ndarray := constant_block (1 # 1000).

(** Consecutive blocks, 50 ms apart, the first one at tick [start]. *)
Definition stamp (start : nat) (blocks : list np.ndarray)
    : list (np.ndarray * Q) :=
  combine blocks
    (map (fun k => inject_Z (Z.of_nat k) * (1 # 20))
       (seq start (List.length blocks))).

(** Scenario D: 500 ms of speech and no silence yet. *)
Definition mid_utterance : AudioCapture :=
  run (init 16000) (stamp 0 (repeat speech_block 10)).

(** Two utterances completed one after the other, nothing popped: 400 ms
    and then 500 ms of speech, each followed by 1.1 s of silence. *)
Definition two_utterances : list (np.ndarray * Q) :=
  stamp 0 (repeat speech_block 8 ++ repeat silence_block 22
           ++ repeat speech_block 10 ++ repeat silence_block 22).

(** Scenario A: 400 ms of speech, then 1.2 s of silence. *)
Definition scenario_A : list (np.ndarray * Q) :=
  stamp 0 (repeat speech_block 8 ++ repeat silence_block 24).

(** Scenario B: 200 ms of speech, then silence; the 22nd block of silence
    is the first one more than a second after the silence began. *)
Definition scenario_B : list (np.ndarray * Q) :=
  stamp 0 (repeat speech_block 4 ++ repeat silence_block 22).

(** Scenario C after its first block: speech to 400 ms, 0.6 s of silence,
    400 ms of speech and 21 blocks of silence, the last of them one second
    after the silence began; the next block of silence, the 50th block, is
    the one that closes the utterance. *)
Definition scenario_C_rest : list (np.ndarray * Q) :=
  stamp 1 (repeat speech_block 7 ++ repeat silence_block 12
           ++ repeat speech_block 8 ++ repeat silence_block 21).


(** ** Notions the properties are stated with *)

(** Whether the most recent block the callback processed (a block that is
    not empty) was classified as silence; [previous] is the answer before
    the block [indata]. *)
Definition last_was_silence (previous : bool) (indata : np.ndarray) : bool :=
  if (0 <? np.size indata)%nat
  then negb (np.rms_gt (audio_mono_of indata) VOICE_THRESHOLD)
  else previous.

(** The invariant of the segmenter state: buffered blocks and a running
    silence clock exist only while recording, the clock only after a block
    of silence. *)
Definition state_inv (last_silence : bool) (self : AudioCapture) : Prop :=
  (audio_buffer self <> [] -> is_recording self = true) /\
  (silence_start_time self <> None ->
   is_recording self = true /\ last_silence = true).

(** The blocks one call of the callback adds to the buffer of a recording
    that goes on: the mono block, or nothing for a block without
    elements. *)
Definition appended (indata : np.ndarray) : list (list Q) :=
  if (0 <? np.size indata)%nat then [audio_mono_of indata] else [].

(** The recorder is recording after each of the blocks. *)
Fixpoint stays_recording (self : AudioCapture) (blocks : list (np.ndarray * Q))
    : Prop :=
  match blocks with
  | [] => True
  | (indata, current_time) :: rest =>
      is_recording (callback self indata current_time) = true /\
      stays_recording (callback self indata current_time) rest
  end.

(** *** Device resolution as the specification words it *)

(** A requested id is valid and names a device with an input channel. *)
Definition valid_input_id (devices : list DeviceInfo) (id : Z) : bool :=
  ((0 <=? id) && (id <? Z.of_nat (List.length devices)))%Z
  && match nth_error devices (Z.to_nat id) with
     | Some dev => (1 <=? max_input_channels dev)%Z
     | None => false
     end.






(** Scenario E: the requested device, number 1, has no input. *)
Definition scenario_E_devices : list DeviceInfo :=
  [ mkDevice "Built-in Microphone" 2;
    mkDevice "Built-in Speakers" 0;
    mkDevice "Monitor of Built-in Audio" 2 ].

(** The queue made by [__init__] stays unbounded, and the buffer only
    ever holds blocks with elements. *)
Definition well_formed (self : AudioCapture) : Prop :=
  queue.maxsize (audio_queue self) = 0%Z /\
  Forall (fun block => block <> []) (audio_buffer self).

(** ** The consumer loop with its callee *)

(** [rounds] rounds of the loop of [process_audio_queue]: each takes the
    oldest pending item and, when it is not empty, awaits
    [assistant.process_audio_chunk_immediate] on it; the result lists the
    calls that reach the transcription step, in order. *)
Fixpoint process_audio_queue (rounds : nat) (is_running : bool)
    (self : AudioCapture) : list (list Q * Q) * AudioCapture :=
  match rounds with
  | O => ([], self)
  | S rounds' =>
      if is_capturing self then
        let (taken, self') := consumer_get self in
        let calls :=
          match taken with
          | Some audio_data =>
              match process_audio_chunk_immediate is_running
                      (sample_rate self) audio_data with
              | Some call => [call]
              | None => []
              end
          | None => []
          end in
        let (later, final) := process_audio_queue rounds' is_running self' in
        (calls ++ later, final)
      else ([], self)
  end.

(** A block with elements whose RMS is above the threshold. *)
Definition is_speech_block (indata : np.ndarray) : bool :=
  (0 <? np.size indata)%nat && np.rms_gt (audio_mono_of indata) VOICE_THRESHOLD.

(** A block with elements whose RMS is not above the threshold. *)
Definition is_silence_block (indata : np.ndarray) : bool :=
  (0 <? np.size indata)%nat
  && negb (np.rms_gt (audio_mono_of indata) VOICE_THRESHOLD).

(** While recording, the buffer holds a block and both times are set. *)
Definition recording_inv (self : AudioCapture) : Prop :=
  is_recording self = true ->
  audio_buffer self <> [] /\
  buffer_start_time self <> None /\
  last_voice_time self <> None.

(** Every pending utterance is longer than the minimum. *)
Definition queue_long (self : AudioCapture) : Prop :=
  Forall (fun utterance => MIN_DURATION < duration_of self utterance)
         (queue.items (audio_queue self)).

(** ** Python strings *)

(** A [str] is its code points. *)
Definition pystr : Type := list N.

(** A literal of ASCII characters as a [str]. *)
Fixpoint lit (s : string) : pystr :=
  match s with
  | EmptyString => []
  | String c rest => N_of_ascii c :: lit rest
  end.

(** The code points [str.strip()] removes: those for which
    [str.isspace()] holds. *)
Definition is_space (c : N) : bool :=
  (((9 <=? c) && (c <=? 13)) || ((28 <=? c) && (c <=? 32))
   || (c =? 133) || (c =? 160) || (c =? 5760)
   || ((8192 <=? c) && (c <=? 8202))
   || (c =? 8232) || (c =? 8233) || (c =? 8239) || (c =? 8287)
   || (c =? 12288))%N.

(** [s.lstrip(chars)], [s.rstrip(chars)] and [s.strip(chars)], with the
    set of characters as a test. *)
Fixpoint lstrip_by (drop : N -> bool) (s : pystr) : pystr :=
  match s with
  | [] => []
  | c :: rest => if drop c then lstrip_by drop rest else s
  end.

Definition rstrip_by (drop : N -> bool) (s : pystr) : pystr :=
  rev (lstrip_by drop (rev s)).

Definition strip_by (drop : N -> bool) (s : pystr) : pystr :=
  rstrip_by drop (lstrip_by drop s).

(** [s.strip()] *)
Definition strip (s : pystr) : pystr := strip_by is_space s.

(** [s.startswith(prefix)] *)
Fixpoint startswith (prefix s : pystr) : bool :=
  match prefix, s with
  | [], _ => true
  | p :: prefix', c :: s' => (p =? c)%N && startswith prefix' s'
  | _ :: _, [] => false
  end.

(** [s.split(sep, 1)] for a separator of one character: the parts before
    and after the first separator, or [None] when there is none and the
    result is the list of [s] alone. *)
Fixpoint split_once (sep : N) (s : pystr) : option (pystr * pystr) :=
  match s with
  | [] => None
  | c :: rest =>
      if (c =? sep)%N then Some ([], rest)
      else match split_once sep rest with
           | Some (before, after) => Some (c :: before, after)
           | None => None
           end
  end.

(** Equality of strings. *)
Fixpoint str_eqb (a b : pystr) : bool :=
  match a, b with
  | [], [] => true
  | x :: a', y :: b' => (x =? y)%N && str_eqb a' b'
  | _, _ => false
  end.

(** [l[start:]] with Python's reading of a negative start. *)
Definition py_slice_from {A} (l : list A) (start : Z) : list A :=
  let n := Z.of_nat (List.length l) in
  let first := if (start <? 0)%Z then Z.max (n + start) 0 else Z.min start n in
  skipn (Z.to_nat first) l.

(** [l[:stop]] for a stop that is not negative. *)
Definition py_slice_to {A} (l : list A) (stop : nat) : list A := firstn stop l.

(** A string that neither starts nor ends with a character of [drop]. *)
Definition trimmed (drop : N -> bool) (s : pystr) : Prop :=
  match s with
  | [] => True
  | c :: _ => drop c = false /\ drop (last s c) = false
  end.


(** A line the scan of the [.env] file passes over: blank, or a comment
    from its first character. *)
Definition skipped (line : pystr) : Prop :=
  strip line = [] \/ startswith (lit "#") line = true.

(** ** [Main.py]: the global hotkeys and the device listing *)

(** What the code uses of [pynput.keyboard]: keys that can be compared
    (they are kept in a set), the [char] of a key when it has one that is
    not empty, [KeyCode.from_char], and the four modifier keys. *)
Record Keyboard : Type := mkKeyboard {
  key : Type;
  key_eqb : key -> key -> bool;
  key_eqb_eq : forall a b, key_eqb a b = true <-> a = b;
  char : key -> option string;
  from_char : string -> key;
  ctrl_l : key;
  alt_l : key;
  ctrl_r : key;
  alt_r : key
}.

(** The coroutines a hotkey schedules. *)
Inductive action : Type := on_suggestions | on_summary | on_clear | on_quit.

Definition action_eq_dec (a b : action) : {a = b} + {a <> b}.
Proof. decide equality. Defined.

Module hotkeys.
Section WithKeyboard.

Variable K : Keyboard.

(** [key in keys] for a set of keys. *)
Definition mem (k : key K) (keys : list (key K)) : bool :=
  existsb (key_eqb K k) keys.

(** [keys.add(k)] *)
Definition add (k : key K) (keys : list (key K)) : list (key K) :=
  if mem k keys then keys else keys ++ [k].

(** [keys.remove(k)] for a key that is in the set. *)
Definition remove (k : key K) (keys : list (key K)) : list (key K) :=
  filter (fun x => negb (key_eqb K k x)) keys.

(** [combo.issubset(keys)] *)
Definition issubset (combo keys : list (key K)) : bool :=
  forallb (fun k => mem k keys) combo.

(** [self.hotkeys], in the order of the dictionary. *)
Definition table : list (list (key K) * action) :=
  [ ([from_char K "s"], on_suggestions);
    ([ctrl_l K; alt_l K; from_char K "r"], on_summary);
    ([ctrl_l K; alt_l K; from_char K "c"], on_clear);
    ([from_char K "q"], on_quit);
    ([ctrl_r K; alt_r K; from_char K "s"], on_suggestions);
    ([ctrl_r K; alt_r K; from_char K "r"], on_summary);
    ([ctrl_r K; alt_r K; from_char K "c"], on_clear);
    ([ctrl_r K; alt_r K; from_char K "q"], on_quit) ]%string.

(** The key as it is kept:
    [KeyCode.from_char(key.char.lower()) if hasattr(key, 'char') and key.char
     else key]. *)
Definition normalized (k : key K) : key K :=
  match char K k with
  | Some c => from_char K (lower c)
  | None => k
  end.

(** [on_press]: the keys that are down afterwards and the coroutines
    scheduled, in order. *)
Definition on_press (current_keys : list (key K)) (k : key K)
    : list (key K) * list action :=
  let current_keys := add (normalized k) current_keys in
  (current_keys,
   map snd (filter (fun hotkey => issubset (fst hotkey) current_keys) table)).

(** [on_release]: the keys that are down afterwards. *)
Definition on_release (current_keys : list (key K)) (k : key K)
    : list (key K) :=
  let normalized_key := normalized k in
  if mem normalized_key current_keys then remove normalized_key current_keys
  else current_keys.

End WithKeyboard.
End hotkeys.

(** A keyboard to try the hotkeys on: character keys, the four modifiers
    and any other key by its number. *)
Inductive plain_key : Type :=
| CharKey (c : string)
| CtrlL | AltL | CtrlR | AltR
| OtherKey (vk : Z).

Definition plain_key_eqb (a b : plain_key) : bool :=
  match a, b with
  | CharKey c, CharKey d => String.eqb c d
  | CtrlL, CtrlL | AltL, AltL | CtrlR, CtrlR | AltR, AltR => true
  | OtherKey v, OtherKey w => (v =? w)%Z
  | _, _ => false
  end.

Lemma plain_key_eqb_eq (a b : plain_key) : plain_key_eqb a b = true <-> a = b.
Proof.
  destruct a, b; cbn; split; try congruence; try discriminate.
  - intros H. apply String.eqb_eq in H. congruence.
  - intros [= ->]. apply String.eqb_refl.
  - intros H. apply Z.eqb_eq in H. congruence.
  - intros [= ->]. apply Z.eqb_refl.
Qed.

Definition plain_keyboard : Keyboard :=
  {| key := plain_key;
     key_eqb := plain_key_eqb;
     key_eqb_eq := plain_key_eqb_eq;
     char := fun k => match k with
                      | CharKey c => if String.eqb c "" then None else Some c
                      | _ => None
                      end;
     from_char := CharKey;
     ctrl_l := CtrlL;
     alt_l := AltL;
     ctrl_r := CtrlR;
     alt_r := AltR |}.

(** One entry of [list_audio_devices]: the device number, whether it is
    listed as input, and whether the hint to use it is printed. *)
Record Listing : Type := mkListing {
  listed_id : Z;
  listed_as_input : bool;
  hinted : bool
}.

(** The test for the hint:
    ['monitor' in name.lower() or 'loopback' in name.lower()]. *)
Definition hint_of (dev : DeviceInfo) : bool :=
  str_in "monitor" (lower (name dev)) || str_in "loopback" (lower (name dev)).

Fixpoint list_audio_devices_from (i : Z) (devices : list DeviceInfo)
    : list Listing :=
  match devices with
  | [] => []
  | dev :: rest =>
      mkListing i (0 <? max_input_channels dev)%Z (hint_of dev)
        :: list_audio_devices_from (i + 1)%Z rest
  end.

(** [list_audio_devices], as what it prints about each device. *)
Definition list_audio_devices (devices : list DeviceInfo) : list Listing :=
  list_audio_devices_from 0 devices.

(** ** [pipeline.py]: the conversation and the API key *)

Module pipeline.

(** A segment as the transcriber yields it. *)
Record Segment : Type := mkSegment {
  text : pystr;
  start : Q;
  end_ : Q
}.

(** The body of the loop of [_transcribe_and_display_immediate] for one
    segment, on [self.full_conversation]; [max_conversation_items] is the
    attribute of that name.  The call of [_save_to_file] in it writes a
    line to the log file and touches nothing else. *)
Definition record_segment (max_conversation_items : Z)
    (full_conversation : list pystr) (seg : Segment) : list pystr :=
  let text := strip (text seg) in
  let seg_duration := end_ seg - start seg in
  if (1 <? List.length text)%nat && Qgtb seg_duration (2 # 10) then
    let full_conversation := full_conversation ++ [text] in
    if (max_conversation_items <? Z.of_nat (List.length full_conversation))%Z
    then py_slice_from full_conversation (- max_conversation_items)
    else full_conversation
  else full_conversation.

(** [_transcribe_and_display_immediate] over the segments the transcriber
    yields (up to the point where it raises, if it does: the handler only
    prints). *)
Definition transcribe_and_display (max_conversation_items : Z)
    (full_conversation : list pystr) (segments : list Segment) : list pystr :=
  fold_left (record_segment max_conversation_items) segments full_conversation.

(** The value of [max_conversation_items] set by [__init__]. *)
Definition MAX_CONVERSATION_ITEMS : Z := 50.



(** [Config._read_api_key_from_env_file] on the lines of the [.env] file,
    each with its line end; [None] stands for a file that does not exist
    or cannot be read.  A line without [=] makes the unpacking raise; the
    handler passes and the empty string is returned. *)
Fixpoint scan_env_lines (lines : list pystr) : pystr :=
  match lines with
  | [] => []
  | line :: rest =>
      if negb (str_eqb (strip line) []) && negb (startswith (lit "#") line) then
        match split_once 61 (strip line) with
        | Some (key, value) =>
            if str_eqb key (lit "DEEPSEEK_API_KEY")
            then strip_by (fun c => (c =? 34)%N || (c =? 39)%N) value
            else scan_env_lines rest
        | None => []
        end
      else scan_env_lines rest
  end.

Definition read_api_key_from_env_file (file : option (list pystr)) : pystr :=
  match file with
  | Some lines => scan_env_lines lines
  | None => []
  end.

(** The property [Config.deepseek_api_key]: the environment variable
    (the empty string when it is not set), or else the file. *)
Definition deepseek_api_key (env_value : pystr) (file : option (list pystr))
    : pystr :=
  if negb (str_eqb env_value []) then env_value
  else read_api_key_from_env_file file.

(** The line that sets the key in a [.env] file, as [validate] suggests
    it: [DEEPSEEK_API_KEY="..."]. *)
Definition env_line (key : pystr) : pystr :=
  lit "DEEPSEEK_API_KEY=" ++ [34%N] ++ key ++ [34%N; 10%N].

End pipeline.

(** ** [ImprovedNotifier.py]: the size of a dialog *)

Module notifier.

Inductive dialog_kind : Type := Info | TextInfo.

(** The [zenity] window a call asks for: [--info] or [--text-info], its
    title, width and height, and the [--timeout] when there is one.  The
    text shown is [format_text(message)]. *)
Record Dialog : Type := mkDialog {
  kind : dialog_kind;
  title : pystr;
  width : Z;
  height : Z;
  timeout : option Z
}.

(** What one call of [get_screen_dimensions] gives, as the two numbers
    the callers make of it: [int(screen_width * 0.8)] and
    [int(screen_height * 0.7)]. *)
Record Screen : Type := mkScreen {
  scaled_width : Z;
  scaled_height : Z
}.

(** [show_info_dialog_simple], when it raises nothing. *)
Definition show_info_dialog_simple (title : pystr) (width height timeout : Z)
    (screen : Screen) : Dialog :=
  let safe_width := Z.min width (scaled_width screen) in
  let safe_height := Z.min height (scaled_height screen) in
  mkDialog Info title safe_width safe_height
    (if (0 <? timeout)%Z then Some timeout else None).

(** [show_info_dialog_large_font], when it raises nothing. *)
Definition show_info_dialog_large_font (title : pystr) (width height timeout : Z)
    (screen : Screen) : Dialog :=
  let safe_width := Z.min width (scaled_width screen) in
  let safe_height := Z.min height (scaled_height screen) in
  mkDialog TextInfo title safe_width safe_height
    (if (0 <? timeout)%Z then Some timeout else None).

(** [emoji_map.get(notification_type, ...)] *)
Definition emoji_of (notification_type : pystr) : pystr :=
  if str_eqb notification_type (lit "info") then [8505; 65039]%N
  else if str_eqb notification_type (lit "warning") then [9888; 65039]%N
  else if str_eqb notification_type (lit "error") then [10060]%N
  else if str_eqb notification_type (lit "question") then [10067]%N
  else if str_eqb notification_type (lit "suggestion") then [128161]%N
  else [8505; 65039]%N.

(** [len(message.split('\n'))] *)
Definition num_lines (message : pystr) : Z :=
  Z.of_nat (count_occ N.eq_dec message 10%N) + 1.

(** [show_notification]; [first] is the screen as the function itself
    reads it (for a long message only), [second] the screen as the dialog
    function it calls reads it. *)
Definition show_notification (title message notification_type : pystr)
    (timeout : Z) (first second : Screen) : Dialog :=
  let emoji := emoji_of notification_type in
  let full_title := emoji ++ lit " " ++ title in
  let num_lines := num_lines message in
  if ((15 <? num_lines) || (1000 <? Z.of_nat (List.length message)))%Z then
    let max_height := Z.min 600 (scaled_height first) in
    let height := Z.min (300 + num_lines * 20) max_height in
    let height := Z.max height 400 in
    let adjusted_timeout := Z.min (timeout + 15) 60 in
    show_info_dialog_large_font full_title 800 height adjusted_timeout second
  else
    show_info_dialog_simple full_title 700 450 timeout second.

End notifier.

(** * Properties *)

(** ** Rationals *)

Section Rationals.

Lemma Qgtb_lt (a b : Q) : Qgtb a b = true <-> b < a.
Proof.
  unfold Qgtb. rewrite negb_true_iff, <- not_true_iff_false, Qle_bool_iff.
  split; [apply Qnot_le_lt | apply Qlt_not_le].
Qed.

Lemma Qgtb_le (a b : Q) : Qgtb a b = false <-> a <= b.
Proof.
  unfold Qgtb. rewrite negb_false_iff. apply Qle_bool_iff.
Qed.




End Rationals.

(** ** The energy classifier *)

Section Classifier.

Local Open Scope R_scope.


End Classifier.

(** ** One step of the segmenter *)

(** Splits a goal about [callback self indata t] along the branches of the
    source, keeping the outcome of each test as a hypothesis. *)
Ltac callback_cases self indata :=
  unfold callback;
  destruct (0 <? np.size indata)%nat eqn:Hsize;
  [ destruct (np.rms_gt (audio_mono_of indata) VOICE_THRESHOLD) eqn:Hvoice;
    [ destruct (is_recording self) eqn:Hrec
    | destruct (is_recording self) eqn:Hrec;
      [ destruct (silence_start_time self) as [started|] eqn:Hsil;
        match goal with
        | |- context [if ?c then _ else _] => destruct c eqn:Hfire
        end
      | ] ]
  | ];
  cbn [negb].

Ltac split_min :=
  match goal with
  | |- context [Qgtb ?d MIN_DURATION] => destruct (Qgtb d MIN_DURATION) eqn:Hmin
  end.

Section Step.

Variables (self : AudioCapture) (indata : np.ndarray) (current_time : Q).

Lemma callback_sample_rate :
  sample_rate (callback self indata current_time) = sample_rate self.
Proof.
  callback_cases self indata; try reflexivity;
    cbn; split_min; reflexivity.
Qed.

(** A block without elements changes nothing. *)
Lemma callback_empty :
  np.size indata = 0%nat -> callback self indata current_time = self.
Proof. intros H. unfold callback. rewrite H. reflexivity. Qed.

(** Silence while idle changes nothing. *)
Lemma callback_idle_silence :
  is_recording self = false ->
  np.rms_gt (audio_mono_of indata) VOICE_THRESHOLD = false ->
  callback self indata current_time = self.
Proof.
  intros Hidle Hquiet. unfold callback.
  rewrite Hquiet, Hidle. destruct (0 <? np.size indata)%nat; reflexivity.
Qed.

(** After a speech block the segmenter is recording, the silence clock
    is cleared and the block is the last one of the buffer. *)
Lemma callback_speech :
  (0 < np.size indata)%nat ->
  np.rms_gt (audio_mono_of indata) VOICE_THRESHOLD = true ->
  let after := callback self indata current_time in
  is_recording after = true /\
  silence_start_time after = None /\
  last_voice_time after = Some current_time /\
  audio_buffer after =
    (if is_recording self then audio_buffer self else [])
      ++ [audio_mono_of indata].
Proof.
  intros Hpos Hloud. apply Nat.ltb_lt in Hpos.
  unfold callback. rewrite Hpos, Hloud.
  destruct (is_recording self) eqn:Hrec; cbn; rewrite ?Hrec; auto.
Qed.

(** After a block of silence: nothing changes when idle; when
    recording, either the utterance is closed and the state reset, or
    the block joins the buffer and the silence clock runs. *)
Lemma callback_silence :
  (0 < np.size indata)%nat ->
  np.rms_gt (audio_mono_of indata) VOICE_THRESHOLD = false ->
  let after := callback self indata current_time in
  (is_recording self = false /\ after = self) \/
  (is_recording self = true /\
   is_recording after = false /\ audio_buffer after = [] /\
   silence_start_time after = None) \/
  (is_recording self = true /\
   is_recording after = true /\ silence_start_time after <> None /\
   audio_buffer after = audio_buffer self ++ [audio_mono_of indata] /\
   audio_queue after = audio_queue self).
Proof.
  intros Hpos Hquiet. apply Nat.ltb_lt in Hpos.
  callback_cases self indata; try discriminate.
  - right; left. cbn. auto.
  - right; right. cbn. rewrite Hrec. repeat split; congruence.
  - right; left. cbn. auto.
  - right; right. cbn. rewrite Hrec. repeat split; congruence.
  - left. auto.
Qed.

End Step.

(** ** The state invariant *)

(** C9.  Every call of the callback preserves the invariant of the
    segmenter state: the buffer holds blocks only while recording, and the
    silence clock is set only while recording and after a block that was
    classified as silence.  A block without elements, and a block of
    silence that arrives while idle, leave the whole state as it is. *)
Theorem callback_preserves_state_inv
    (self : AudioCapture) (indata : np.ndarray) (current_time : Q)
    (last_silence : bool) :
  state_inv last_silence self ->
  state_inv (last_was_silence last_silence indata)
            (callback self indata current_time) /\
  (np.size indata = 0%nat -> callback self indata current_time = self) /\
  (is_recording self = false ->
   np.rms_gt (audio_mono_of indata) VOICE_THRESHOLD = false ->
   callback self indata current_time = self).
Proof.
  intros [Hbuf Hclock].
  split; [| split; [apply callback_empty | apply callback_idle_silence]].
  unfold last_was_silence.
  destruct (0 <? np.size indata)%nat eqn:Hsize.
  - apply Nat.ltb_lt in Hsize.
    destruct (np.rms_gt (audio_mono_of indata) VOICE_THRESHOLD) eqn:Hvoice.
    + destruct (callback_speech self indata current_time Hsize Hvoice)
        as (Hrec & Hsil & _ & _).
      split; [intros _; exact Hrec | intros Hset; contradiction].
    + destruct (callback_silence self indata current_time Hsize Hvoice)
        as [[Hidle Hsame] | [(_ & Hrec & Hempty & Hsil) | (_ & Hrec & _)]].
      * rewrite Hsame. split; [exact Hbuf |].
        intros Hset. destruct (Hclock Hset) as [Hrec _]. congruence.
      * split; intros Hset; contradiction.
      * split; [intros _; exact Hrec | intros _; split; [exact Hrec | reflexivity]].
  - apply Nat.ltb_ge in Hsize.
    rewrite callback_empty by lia. split; assumption.
Qed.

(** The invariant at work: after one speech block from the fresh state,
    a block of silence keeps it, and now the silence clock runs. *)
Lemma callback_preserves_state_inv_witness :
  let self := callback (init 16000) speech_block 0 in
  state_inv false self /\
  state_inv (last_was_silence false silence_block)
            (callback self silence_block (1 # 20)).
Proof.
  intros self.
  assert (Hinv : state_inv false self).
  { split.
    - intros _. vm_compute. reflexivity.
    - intros Hset. exfalso. apply Hset. vm_compute. reflexivity. }
  split; [exact Hinv |].
  exact (proj1 (callback_preserves_state_inv self silence_block (1 # 20) false Hinv)).
Defined.

(** ** The classifier inside the callback *)





(** ** The hand-off queue *)

Section QueueFacts.

Context {A : Type}.
Implicit Types (q : queue.Queue A) (x : A).

Lemma full_unbounded q : (queue.maxsize q <= 0)%Z -> queue.full q = false.
Proof.
  intros Hmax. unfold queue.full.
  destruct (0 <? queue.maxsize q)%Z eqn:Hpos; [| reflexivity].
  apply Z.ltb_lt in Hpos. lia.
Qed.

Lemma put_nowait_unbounded q x :
  (queue.maxsize q <= 0)%Z ->
  queue.put_nowait q x
  = Some (queue.mkQueue (queue.maxsize q) (queue.items q ++ [x])).
Proof.
  intros Hmax. unfold queue.put_nowait. rewrite full_unbounded by exact Hmax.
  reflexivity.
Qed.

Lemma put_drop_oldest_unbounded q x :
  (queue.maxsize q <= 0)%Z ->
  put_drop_oldest q x
  = queue.mkQueue (queue.maxsize q) (queue.items q ++ [x]).
Proof.
  intros Hmax. unfold put_drop_oldest.
  rewrite put_nowait_unbounded by exact Hmax. reflexivity.
Qed.

Lemma put_nowait_maxsize q x q' :
  queue.put_nowait q x = Some q' -> queue.maxsize q' = queue.maxsize q.
Proof.
  unfold queue.put_nowait. destruct (queue.full q); [discriminate |].
  intros [= <-]. reflexivity.
Qed.

Lemma get_nowait_maxsize q x q' :
  queue.get_nowait q = Some (x, q') -> queue.maxsize q' = queue.maxsize q.
Proof.
  unfold queue.get_nowait. destruct (queue.items q); [discriminate |].
  intros [= _ <-]. reflexivity.
Qed.

Lemma put_drop_oldest_maxsize q x :
  queue.maxsize (put_drop_oldest q x) = queue.maxsize q.
Proof.
  unfold put_drop_oldest.
  destruct (queue.put_nowait q x) as [q'|] eqn:Hput.
  - eapply put_nowait_maxsize; eassumption.
  - destruct (queue.get_nowait q) as [[y q1]|] eqn:Hget; [| reflexivity].
    apply get_nowait_maxsize in Hget.
    destruct (queue.put_nowait q1 x) as [q2|] eqn:Hput2; [| exact Hget].
    apply put_nowait_maxsize in Hput2. congruence.
Qed.

End QueueFacts.

(** ** What holds in every reachable state *)

Section Reachable.

Lemma flat_map_nonempty {A B} (f : A -> list B) (l : list A) :
  l <> [] -> (forall a, f a <> []) -> flat_map f l <> [].
Proof.
  destruct l as [|a l]; [congruence |].
  intros _ Hf. simpl. specialize (Hf a).
  destruct (f a); [congruence | discriminate].
Qed.

Lemma seq_nonempty (start len : nat) : (0 < len)%nat -> seq start len <> [].
Proof. destruct len; [lia | discriminate]. Qed.

(** The mono block of a block with elements has elements. *)
Lemma audio_mono_nonempty (indata : np.ndarray) :
  (0 < np.size indata)%nat -> audio_mono_of indata <> [].
Proof.
  destruct indata as [data | frames channels at_];
    unfold audio_mono_of, np.size.
  - destruct data; [cbn; lia | discriminate].
  - intros Hsize.
    assert (Hframes : (0 < frames)%nat) by nia.
    destruct (1 <? channels)%nat eqn:Hmany.
    + unfold np.mean_axis1. intros Hnil. apply map_eq_nil in Hnil.
      exact (seq_nonempty 0 frames Hframes Hnil).
    + apply Nat.ltb_ge in Hmany.
      assert (channels = 1%nat) as -> by nia.
      apply flat_map_nonempty; [apply seq_nonempty; exact Hframes |].
      intros i. discriminate.
Qed.

Lemma callback_well_formed self indata current_time :
  well_formed self -> well_formed (callback self indata current_time).
Proof.
  intros [Hmax Hblocks]. unfold well_formed.
  assert (Hgrow : (0 <? np.size indata)%nat = true ->
            Forall (fun block => block <> [])
                   (audio_buffer self ++ [audio_mono_of indata])).
  { intros Hsize. apply Forall_app. split; [exact Hblocks |].
    constructor; [| constructor].
    apply audio_mono_nonempty, Nat.ltb_lt, Hsize. }
  callback_cases self indata; cbn; rewrite ?Hrec; auto.
  - split; [exact Hmax |]. constructor; [| constructor].
    apply audio_mono_nonempty, Nat.ltb_lt, Hsize.
  - split_min; cbn; [rewrite put_drop_oldest_maxsize |]; auto.
  - split_min; cbn; [rewrite put_drop_oldest_maxsize |]; auto.
Qed.

Lemma stop_well_formed self : well_formed self -> well_formed (stop self).
Proof.
  intros [Hmax Hblocks]. unfold well_formed, stop.
  repeat match goal with
         | |- context [match ?c with _ => _ end] =>
             lazymatch c with
             | context [match _ with _ => _ end] => fail
             | _ => destruct c eqn:?
             end
         end; cbn; auto;
    match goal with
    | H : queue.put_nowait _ _ = Some _ |- _ =>
        apply put_nowait_maxsize in H; cbn in H; split; [congruence | auto]
    end.
Qed.

Lemma reachable_well_formed self : reachable self -> well_formed self.
Proof.
  induction 1 as [rate | self id _ IH | self devices default outcome _ IH
                 | self indata current_time _ IH | self _ IH | self _ IH].
  - split; [reflexivity | constructor].
  - exact IH.
  - unfold start_capture.
    destruct (find_audio_device _ _ _); [destruct outcome |]; exact IH.
  - apply callback_well_formed, IH.
  - destruct IH as [Hmax Hblocks]. unfold consumer_get.
    destruct (is_capturing self); [| split; assumption].
    destruct (queue.get_nowait (audio_queue self)) as [[u q]|] eqn:Hget;
      [| split; assumption].
    apply get_nowait_maxsize in Hget. split; cbn; congruence.
  - apply stop_well_formed, IH.
Qed.

Lemma reachable_run self blocks :
  reachable self -> reachable (run self blocks).
Proof.
  revert self. induction blocks as [|[indata current_time] rest IH];
    intros self Hreach; [exact Hreach |].
  apply IH, reach_callback, Hreach.
Qed.

Lemma concatenate_nonempty (blocks : list (list Q)) :
  blocks <> [] -> Forall (fun block => block <> []) blocks ->
  np.concatenate blocks <> [].
Proof.
  destruct blocks as [|b rest]; [congruence |].
  intros _ Hall. inversion Hall as [| ? ? Hb _]; subst.
  unfold np.concatenate; simpl. destruct b; [congruence | discriminate].
Qed.

End Reachable.

(** ** [stop] *)

(** Splits a goal about [stop] along the tests of its body. *)
Ltac stop_cases :=
  unfold stop;
  repeat match goal with
         | |- context [match ?c with _ => _ end] =>
             lazymatch c with
             | context [match _ with _ => _ end] => fail
             | _ => destruct c eqn:?
             end
         end; cbn in *.

Ltac stop_finish :=
  repeat match goal with
         | H : Some _ = Some _ |- _ => injection H as H; try subst
         end;
  cbn in *; congruence.

Section Stop.

Variable self : AudioCapture.

(** [stop] leaves the segmenter state as it finds it. *)
Lemma stop_keeps_segment :
  is_recording (stop self) = is_recording self /\
  audio_buffer (stop self) = audio_buffer self /\
  silence_start_time (stop self) = silence_start_time self /\
  sample_rate (stop self) = sample_rate self.
Proof. stop_cases; auto. Qed.

Lemma stop_not_capturing : is_capturing (stop self) = false.
Proof. stop_cases; auto. Qed.

(** With nothing in progress the queue is left alone. *)
Lemma stop_queue_idle :
  is_recording self = false \/ audio_buffer self = [] ->
  audio_queue (stop self) = audio_queue self.
Proof.
  intros [Hidle | Hempty]; stop_cases; auto;
    try congruence;
    match goal with
    | H : (_ && _) = true |- _ => apply andb_prop in H; destruct H
    end; try congruence.
  all: rewrite Hempty in *; discriminate.
Qed.

(** With an utterance in progress the flattened buffer is appended. *)
Lemma stop_queue_flush :
  well_formed self ->
  is_recording self = true -> audio_buffer self <> [] ->
  audio_queue (stop self)
  = queue.mkQueue 0 (queue.items (audio_queue self)
                       ++ [np.concatenate (audio_buffer self)]).
Proof.
  intros [Hmax Hblocks] Hrec Hbuf.
  pose proof (concatenate_nonempty _ Hbuf Hblocks) as Hsome.
  assert (Hput := put_nowait_unbounded (audio_queue self)
                    (np.concatenate (audio_buffer self))).
  rewrite Hmax in Hput. specialize (Hput (Z.le_refl 0)).
  assert (Hlen : (0 <? List.length (audio_buffer self))%nat = true)
    by (apply Nat.ltb_lt; destruct (audio_buffer self); [congruence | cbn; lia]).
  assert (Hlen' : (0 <? List.length (np.concatenate (audio_buffer self)))%nat = true)
    by (apply Nat.ltb_lt;
        destruct (np.concatenate (audio_buffer self)); [congruence | cbn; lia]).
  unfold stop. cbn -[Nat.ltb np.concatenate]. rewrite Hrec, Hlen. cbn -[Nat.ltb np.concatenate].
  rewrite Hlen', Hput. cbn -[Nat.ltb np.concatenate].
  destruct (process_task self) as [[|]|]; cbn -[Nat.ltb np.concatenate];
    destruct (stream self) as [[| |]|]; reflexivity.
Qed.

Lemma stop_stream :
  stream (stop self)
  = match stream self with Some _ => Some StreamClosed | None => None end.
Proof.
  destruct self as [rate [[| |]|] cap q task dev buf bst lvt sst rec];
    stop_cases; stop_finish.
Qed.

Lemma stop_process_task :
  process_task (stop self)
  = match process_task self with
    | Some _ => Some TaskCancelled
    | None => None
    end.
Proof.
  destruct self as [rate str cap q [[|]|] dev buf bst lvt sst rec];
    stop_cases; stop_finish.
Qed.

(** [stop] only writes the stream, the capture flag, the queue and the
    consumer task. *)
Lemma stop_shape :
  stop self
  = mkAudioCapture (sample_rate self) (stream (stop self)) false
      (audio_queue (stop self)) (process_task (stop self)) (device_id self)
      (audio_buffer self) (buffer_start_time self) (last_voice_time self)
      (silence_start_time self) (is_recording self).
Proof. destruct self. stop_cases; reflexivity. Qed.

End Stop.

(** A second [stop] changes nothing but, possibly, the queue. *)
Lemma stop_twice_rest (self : AudioCapture) :
  stop (stop self) = set_audio_queue (audio_queue (stop (stop self))) (stop self).
Proof.
  set (once := stop self).
  rewrite (stop_shape once). unfold set_audio_queue.
  f_equal.
  - rewrite (stop_stream once). unfold once. rewrite stop_stream.
    destruct (stream self); reflexivity.
  - unfold once. symmetry. apply stop_not_capturing.
  - rewrite (stop_process_task once). unfold once. rewrite stop_process_task.
    destruct (process_task self); reflexivity.
Qed.

(** ** The hand-off on overflow *)

(** C1, as the code has it.  The queue of an [AudioCapture] is unbounded:
    in every reachable state a push succeeds at once ([put_nowait] never
    reports a full queue), and two pushes without a pop in between leave
    both utterances pending after the earlier ones, in the order of the
    pushes; with nothing else pending, the next pop returns the first of
    the two and leaves the second. *)
Theorem two_pushes_keep_both (self : AudioCapture) (first second : list Q) :
  reachable self ->
  let q := audio_queue self in
  let q2 := put_drop_oldest (put_drop_oldest q first) second in
  queue.put_nowait q first <> None /\
  queue.put_nowait (put_drop_oldest q first) second <> None /\
  queue.items q2 = queue.items q ++ [first; second] /\
  (queue.items q = [] ->
   queue.get_nowait q2 = Some (first, queue.mkQueue 0 [second])).
Proof.
  intros Hreach q q2.
  destruct (reachable_well_formed self Hreach) as [Hmax _].
  fold q in Hmax.
  assert (Hq : (queue.maxsize q <= 0)%Z) by lia.
  assert (Hq1 : put_drop_oldest q first
                = queue.mkQueue 0 (queue.items q ++ [first]))
    by (rewrite put_drop_oldest_unbounded, Hmax by exact Hq; reflexivity).
  assert (Hq2 : q2 = queue.mkQueue 0 ((queue.items q ++ [first]) ++ [second]))
    by (unfold q2; rewrite Hq1, put_drop_oldest_unbounded by (cbn; lia);
        reflexivity).
  split; [rewrite put_nowait_unbounded by exact Hq; discriminate |].
  split; [rewrite Hq1, put_nowait_unbounded by (cbn; lia); discriminate |].
  rewrite Hq2. cbn. rewrite <- app_assoc. split; [reflexivity |].
  intros ->. reflexivity.
Qed.

(** On the queue of a fresh [AudioCapture]: both items stay, the first
    one is popped first. *)
Lemma two_pushes_keep_both_witness :
  let q2 := put_drop_oldest
              (put_drop_oldest (audio_queue (init 16000)) [1 # 10]) [2 # 10] in
  queue.items q2 = [[1 # 10]; [2 # 10]] /\
  queue.get_nowait q2 = Some ([1 # 10], queue.mkQueue 0 [[2 # 10]]).
Proof.
  destruct (two_pushes_keep_both (init 16000) [1 # 10] [2 # 10]
              (reach_init 16000)) as (_ & _ & Hitems & Hpop).
  split; [exact Hitems | exact (Hpop eq_refl)].
Defined.

(** C1, as the specification words it, fails: after the callback has
    completed two utterances with no pop in between, the queue holds both
    (23200 and then 24800 samples), not the second alone, and the next pop
    returns the first. *)
Lemma two_pushes_counterexample :
  let q := audio_queue (run (init 16000) two_utterances) in
  map (fun u => Z.of_nat (List.length u)) (queue.items q) = [23200; 24800]%Z /\
  (forall second, queue.items q <> [second]) /\
  option_map (fun popped => Z.of_nat (List.length (fst popped)))
             (queue.get_nowait q) = Some 23200%Z.
Proof.
  intros q.
  assert (Hlen : map (fun u => Z.of_nat (List.length u)) (queue.items q)
                 = [23200; 24800]%Z) by (vm_compute; reflexivity).
  split; [exact Hlen | split].
  - intros second Hone. rewrite Hone in Hlen. discriminate Hlen.
  - vm_compute. reflexivity.
Qed.

(** ** Flush on [stop] *)

(** C5.  When [stop] is called in a reachable state that is recording
    with a buffer that is not empty, the flattened buffer is appended to
    the queue, whatever its duration and whatever the silence clock says:
    exactly one utterance is added, it is not empty, and it has all the
    samples of the buffered blocks. *)
Theorem stop_flushes_buffer (self : AudioCapture) :
  reachable self ->
  is_recording self = true ->
  audio_buffer self <> [] ->
  let utterance := np.concatenate (audio_buffer self) in
  utterance <> [] /\
  queue.items (audio_queue (stop self))
  = queue.items (audio_queue self) ++ [utterance] /\
  List.length utterance = list_sum (map (@List.length Q) (audio_buffer self)) /\
  duration_of (stop self) utterance = duration_of self utterance.
Proof.
  intros Hreach Hrec Hbuf utterance.
  pose proof (reachable_well_formed self Hreach) as Hwf.
  split; [apply concatenate_nonempty; [exact Hbuf | apply Hwf] |].
  split; [rewrite stop_queue_flush by assumption; reflexivity |].
  split; [apply length_concat |].
  unfold duration_of.
  destruct (stop_keeps_segment self) as (_ & _ & _ & ->). reflexivity.
Qed.

(** Scenario D: 500 ms of speech are buffered and no silence has been
    seen; [stop] hands over one utterance of half a second. *)
Lemma stop_flushes_buffer_witness :
  let utterance := np.concatenate (audio_buffer mid_utterance) in
  queue.items (audio_queue (stop mid_utterance)) = [utterance] /\
  duration_of mid_utterance utterance == 1 # 2.
Proof.
  intros utterance.
  assert (Hreach : reachable mid_utterance)
    by (apply reachable_run, reach_init).
  assert (Hrec : is_recording mid_utterance = true)
    by (vm_compute; reflexivity).
  assert (Hbuf : audio_buffer mid_utterance <> [])
    by (vm_compute; discriminate).
  destruct (stop_flushes_buffer mid_utterance Hreach Hrec Hbuf)
    as (_ & Hitems & _ & _).
  split.
  - rewrite Hitems.
    replace (queue.items (audio_queue mid_utterance)) with (@nil (list Q))
      by (vm_compute; reflexivity).
    reflexivity.
  - vm_compute. reflexivity.
Defined.

(** The flush does not look at the minimum duration: one block of 50 ms
    is handed over as well. *)
Example stop_flushes_short_buffer :
  let self := run (init 16000) (stamp 0 [speech_block]) in
  map (fun u => Z.of_nat (List.length u)) (queue.items (audio_queue (stop self)))
  = [800%Z] /\
  duration_of self (np.concatenate (audio_buffer self)) < MIN_DURATION.
Proof. split; vm_compute; reflexivity. Qed.

(** ** [stop] twice *)

(** [stop] does not reset the segmenter, so in a reachable state that is
    recording with a buffer that is not empty the second of two calls in
    succession appends the flattened buffer once more; with nothing in
    progress neither call touches the queue and the second call changes
    nothing at all.  In both cases the second call returns, and changes
    nothing but the queue. *)
Lemma stop_twice (self : AudioCapture) :
  reachable self ->
  let once := stop self in
  let twice := stop once in
  let utterance := np.concatenate (audio_buffer self) in
  twice = set_audio_queue (audio_queue twice) once /\
  (is_recording self = true -> audio_buffer self <> [] ->
   queue.items (audio_queue once)
   = queue.items (audio_queue self) ++ [utterance] /\
   queue.items (audio_queue twice)
   = queue.items (audio_queue self) ++ [utterance; utterance]) /\
  (is_recording self = false \/ audio_buffer self = [] ->
   queue.items (audio_queue once) = queue.items (audio_queue self) /\
   twice = once).
Proof.
  intros Hreach once twice utterance.
  split; [apply stop_twice_rest | split].
  - intros Hrec Hbuf.
    pose proof (reachable_well_formed self Hreach) as Hwf.
    pose proof (reachable_well_formed once (reach_stop self Hreach)) as Hwf1.
    destruct (stop_keeps_segment self) as (Hrec1 & Hbuf1 & _).
    fold once in Hrec1, Hbuf1.
    assert (Hfirst : audio_queue once
                     = queue.mkQueue 0 (queue.items (audio_queue self) ++ [utterance]))
      by (apply stop_queue_flush; assumption).
    split; [rewrite Hfirst; reflexivity |].
    unfold twice. rewrite stop_queue_flush; [| exact Hwf1 | congruence | congruence].
    rewrite Hfirst, Hbuf1. cbn -[np.concatenate].
    rewrite <- app_assoc. reflexivity.
  - intros Hnothing.
    assert (Hq1 : audio_queue once = audio_queue self)
      by (apply stop_queue_idle; exact Hnothing).
    split; [rewrite Hq1; reflexivity |].
    destruct (stop_keeps_segment self) as (Hrec1 & Hbuf1 & _).
    fold once in Hrec1, Hbuf1.
    unfold twice, once. rewrite stop_twice_rest. fold once.
    rewrite (stop_queue_idle once) by (rewrite Hrec1, Hbuf1; exact Hnothing).
    clearbody once. destruct once; reflexivity.
Qed.

(** In Scenario D the queue holds the utterance once after the first
    call and twice after the second. *)
Lemma stop_twice_witness :
  let utterance := np.concatenate (audio_buffer mid_utterance) in
  queue.items (audio_queue (stop mid_utterance)) = [utterance] /\
  queue.items (audio_queue (stop (stop mid_utterance))) = [utterance; utterance].
Proof.
  intros utterance.
  assert (Hreach : reachable mid_utterance)
    by (apply reachable_run, reach_init).
  assert (Hrec : is_recording mid_utterance = true)
    by (vm_compute; reflexivity).
  assert (Hbuf : audio_buffer mid_utterance <> [])
    by (vm_compute; discriminate).
  assert (Hpending : queue.items (audio_queue mid_utterance) = [])
    by (vm_compute; reflexivity).
  destruct (stop_twice mid_utterance Hreach) as (_ & Hflush & _).
  destruct (Hflush Hrec Hbuf) as [Honce Htwice].
  rewrite Hpending in Honce, Htwice.
  split; assumption.
Defined.

(** C3 on the code.  Called twice in Scenario D, [stop] flushes twice: the
    first call hands over the 8000 buffered samples, and the second call,
    finding the recorder still recording and the buffer still full, hands
    over a second copy of them. *)
Theorem stop_twice_flushes_twice :
  let once := stop mid_utterance in
  let twice := stop once in
  map (fun u => Z.of_nat (List.length u)) (queue.items (audio_queue once))
  = [8000]%Z /\
  map (fun u => Z.of_nat (List.length u)) (queue.items (audio_queue twice))
  = [8000; 8000]%Z /\
  queue.items (audio_queue twice) <> queue.items (audio_queue once).
Proof.
  intros once twice.
  assert (H1 : map (fun u => Z.of_nat (List.length u))
                   (queue.items (audio_queue once)) = [8000]%Z)
    by (vm_compute; reflexivity).
  assert (H2 : map (fun u => Z.of_nat (List.length u))
                   (queue.items (audio_queue twice)) = [8000; 8000]%Z)
    by (vm_compute; reflexivity).
  split; [exact H1 | split; [exact H2 |]].
  intros Hsame. rewrite Hsame in H2. rewrite H1 in H2. discriminate H2.
Qed.

(** ** What the callback hands over *)

Section Emission.

Variables (self : AudioCapture) (indata : np.ndarray) (current_time : Q).

Let after := callback self indata current_time.

(** While the recording goes on, the queue is not touched and the block
    joins the buffer. *)
Lemma callback_keeps_recording :
  is_recording after = true ->
  audio_queue after = audio_queue self /\
  audio_buffer after
  = (if is_recording self then audio_buffer self else []) ++ appended indata.
Proof.
  unfold after, appended.
  callback_cases self indata; cbn; rewrite ?Hrec; try discriminate; auto.
  intros ->. rewrite app_nil_r. auto.
Qed.

(** When a recording ends, the flattened buffer is handed over if it is
    longer than the minimum, and dropped otherwise. *)
Lemma callback_ends_recording :
  is_recording self = true ->
  is_recording after = false ->
  audio_queue after
  = (if Qgtb (duration_of self (np.concatenate (audio_buffer self))) MIN_DURATION
     then put_drop_oldest (audio_queue self) (np.concatenate (audio_buffer self))
     else audio_queue self).
Proof.
  unfold after. intros Hon.
  unfold duration_of.
  callback_cases self indata; cbn -[np.concatenate Qdiv]; try congruence.
  - intros _. unfold duration_of. cbn -[np.concatenate Qdiv].
    split_min; reflexivity.
  - intros _. unfold duration_of. cbn -[np.concatenate Qdiv].
    split_min; reflexivity.
Qed.

(** One call either leaves the queue alone or hands over one utterance
    longer than the minimum. *)
Lemma callback_queue :
  audio_queue after = audio_queue self \/
  (exists utterance,
      MIN_DURATION < duration_of self utterance /\
      audio_queue after = put_drop_oldest (audio_queue self) utterance).
Proof.
  destruct (is_recording after) eqn:Hafter.
  - left. apply callback_keeps_recording, Hafter.
  - destruct (is_recording self) eqn:Hself.
    + rewrite (callback_ends_recording Hself Hafter).
      destruct (Qgtb _ MIN_DURATION) eqn:Hmin; [right | left; reflexivity].
      eexists. split; [apply Qgtb_lt; exact Hmin | reflexivity].
    + left. unfold after.
      callback_cases self indata; cbn; try congruence; reflexivity.
Qed.

End Emission.

Lemma run_sample_rate (blocks : list (np.ndarray * Q)) (self : AudioCapture) :
  sample_rate (run self blocks) = sample_rate self.
Proof.
  revert self. induction blocks as [|[indata current_time] rest IH];
    intros self; [reflexivity |].
  simpl. rewrite IH. apply callback_sample_rate.
Qed.

Lemma duration_of_sample_rate (self other : AudioCapture) (samples : list Q) :
  sample_rate other = sample_rate self ->
  duration_of other samples = duration_of self samples.
Proof. unfold duration_of. intros ->. reflexivity. Qed.

(** C4.  Over any sequence of blocks, fed to the callback from a reachable
    state, the queue only grows, and every utterance the callback adds has
    a duration (samples divided by the sample rate) strictly greater than
    0.3 seconds. *)
Theorem emitted_utterances_exceed_minimum
    (self : AudioCapture) (blocks : list (np.ndarray * Q)) :
  reachable self ->
  exists emitted,
    queue.items (audio_queue (run self blocks))
    = queue.items (audio_queue self) ++ emitted /\
    Forall (fun utterance => MIN_DURATION < duration_of self utterance) emitted.
Proof.
  revert self. induction blocks as [|[indata current_time] rest IH];
    intros self Hreach.
  - exists []. rewrite app_nil_r. split; [reflexivity | constructor].
  - simpl run.
    destruct (IH (callback self indata current_time)
                 (reach_callback self indata current_time Hreach))
      as (later & Hitems & Hlong).
    assert (Hlong' : Forall (fun u => MIN_DURATION < duration_of self u) later).
    { eapply Forall_impl; [| exact Hlong]. intros u Hu. cbn in Hu.
      rewrite (duration_of_sample_rate self) in Hu; [exact Hu |].
      apply callback_sample_rate. }
    destruct (callback_queue self indata current_time)
      as [Hsame | (utterance & Hmin & Hput)].
    + exists later. rewrite Hitems, Hsame. split; [reflexivity | exact Hlong'].
    + exists (utterance :: later). rewrite Hitems, Hput.
      destruct (reachable_well_formed self Hreach) as [Hmax _].
      rewrite put_drop_oldest_unbounded by lia. cbn.
      rewrite <- app_assoc. split; [reflexivity |].
      constructor; assumption.
Qed.

(** Scenario A: one utterance comes out, and it is longer than 0.3 s. *)
Lemma emitted_utterances_exceed_minimum_witness :
  exists utterance,
    queue.items (audio_queue (run (init 16000) scenario_A)) = [utterance] /\
    MIN_DURATION < duration_of (init 16000) utterance.
Proof.
  destruct (emitted_utterances_exceed_minimum (init 16000) scenario_A
              (reach_init 16000)) as (emitted & Hitems & Hlong).
  assert (Hone : List.length (queue.items (audio_queue (run (init 16000) scenario_A)))
                 = 1%nat) by (vm_compute; reflexivity).
  rewrite Hitems in Hone. cbn in Hone.
  destruct emitted as [|utterance [|more rest]]; try discriminate Hone.
  exists utterance. split; [exact Hitems |].
  inversion Hlong; assumption.
Defined.

(** The test is strict: a buffer of exactly 0.3 s (one block of speech and
    five of silence, closed by a block that comes after a gap) is dropped. *)
Example exactly_minimum_is_dropped :
  let before := run (init 16000) (stamp 0 (speech_block :: repeat silence_block 5)) in
  let after := callback before silence_block 2 in
  duration_of before (np.concatenate (audio_buffer before)) == MIN_DURATION /\
  is_recording before = true /\
  is_recording after = false /\
  queue.items (audio_queue after) = [].
Proof.
  intros before after.
  split; [vm_compute; reflexivity |].
  split; [vm_compute; reflexivity |].
  split; vm_compute; reflexivity.
Qed.

(** ** The samples of an utterance *)

Lemma stays_recording_run (blocks : list (np.ndarray * Q)) (self : AudioCapture) :
  is_recording self = true ->
  stays_recording self blocks ->
  is_recording (run self blocks) = true /\
  audio_queue (run self blocks) = audio_queue self /\
  audio_buffer (run self blocks)
  = audio_buffer self ++ flat_map appended (map fst blocks).
Proof.
  revert self. induction blocks as [|[indata current_time] rest IH];
    intros self Hrec Hstay.
  - cbn. rewrite app_nil_r. auto.
  - destruct Hstay as [Hnext Hrest]. simpl run.
    destruct (IH _ Hnext Hrest) as (Hon & Hqueue & Hbuffer).
    destruct (callback_keeps_recording self indata current_time Hnext)
      as [Hqueue1 Hbuffer1].
    rewrite Hrec in Hbuffer1.
    split; [exact Hon | split; [congruence |]].
    rewrite Hbuffer, Hbuffer1. cbn [map fst flat_map].
    rewrite <- app_assoc. reflexivity.
Qed.

(** C7.  Take a recorder that is idle, a block that makes it record, any
    blocks after which it is still recording, and then a block that ends
    the recording.  The buffer before that last block holds exactly the
    mono blocks of the first block and of the blocks after it, in order,
    silence included (a block without elements adds none); the utterance
    is their concatenation, so its sample count is the sum of theirs; and
    it is the utterance handed over (if it is longer than the minimum,
    otherwise nothing is).  The block that ends the recording is not part
    of it. *)
Theorem utterance_is_all_appended_blocks
    (self : AudioCapture) (first : np.ndarray) (start_time : Q)
    (blocks : list (np.ndarray * Q)) (trigger : np.ndarray) (end_time : Q) :
  reachable self ->
  is_recording self = false ->
  stays_recording self ((first, start_time) :: blocks) ->
  let before := run self ((first, start_time) :: blocks) in
  let after := callback before trigger end_time in
  is_recording after = false ->
  let buffered := flat_map appended (first :: map fst blocks) in
  let utterance := np.concatenate buffered in
  audio_buffer before = buffered /\
  List.length utterance = list_sum (map (@List.length Q) buffered) /\
  (MIN_DURATION < duration_of self utterance ->
   queue.items (audio_queue after)
   = queue.items (audio_queue self) ++ [utterance]) /\
  (duration_of self utterance <= MIN_DURATION ->
   audio_queue after = audio_queue self).
Proof.
  intros Hreach Hidle [Hentered Hstay] before after Hended buffered utterance.
  destruct (callback_keeps_recording self first start_time Hentered)
    as [Hqueue0 Hbuffer0].
  rewrite Hidle in Hbuffer0. cbn [app] in Hbuffer0.
  destruct (stays_recording_run blocks _ Hentered Hstay)
    as (Hon & Hqueue & Hbuffer).
  change (run (callback self first start_time) blocks) with before
    in Hon, Hqueue, Hbuffer.
  assert (Hbuf : audio_buffer before = buffered).
  { rewrite Hbuffer, Hbuffer0. reflexivity. }
  assert (Hrate : sample_rate before = sample_rate self)
    by (unfold before; apply run_sample_rate).
  assert (Hlast := callback_ends_recording before trigger end_time Hon Hended).
  fold after in Hlast.
  rewrite Hbuf, Hqueue, Hqueue0 in Hlast. fold utterance in Hlast.
  rewrite (duration_of_sample_rate self before utterance Hrate) in Hlast.
  split; [exact Hbuf | split; [apply length_concat | split]].
  - intros Hlong. apply Qgtb_lt in Hlong. rewrite Hlong in Hlast.
    rewrite Hlast.
    destruct (reachable_well_formed self Hreach) as [Hmax _].
    rewrite put_drop_oldest_unbounded by lia. reflexivity.
  - intros Hshort. apply Qgtb_le in Hshort. rewrite Hshort in Hlast.
    exact Hlast.
Qed.

(** Scenario C: the pause of 0.6 s does not split the utterance; what is
    handed over has the samples of all 49 buffered blocks. *)
Lemma utterance_is_all_appended_blocks_witness :
  let before := run (init 16000) ((speech_block, 0) :: scenario_C_rest) in
  let after := callback before silence_block (49 # 20) in
  exists utterance,
    queue.items (audio_queue after) = [utterance] /\
    utterance
    = np.concatenate (flat_map appended (speech_block :: map fst scenario_C_rest)) /\
    Z.of_nat (List.length utterance) = 39200%Z.
Proof.
  intros before after.
  assert (Hstay : stays_recording (init 16000) ((speech_block, 0) :: scenario_C_rest))
    by (vm_compute; repeat split).
  assert (Hended : is_recording after = false) by (vm_compute; reflexivity).
  destruct (utterance_is_all_appended_blocks (init 16000) speech_block 0
              scenario_C_rest silence_block (49 # 20)
              (reach_init 16000) eq_refl Hstay Hended)
    as (_ & Hcount & Hlong & _).
  eexists. split; [| split; [reflexivity |]].
  - apply Hlong. vm_compute. reflexivity.
  - vm_compute. reflexivity.
Defined.

(** ** Scenario B on the code *)

(** Silence does nothing to an idle recorder, however long it lasts. *)
Lemma run_idle_silence (times : list Q) (self : AudioCapture) :
  is_recording self = false ->
  run self (map (fun t => (silence_block, t)) times) = self.
Proof.
  intros Hidle. induction times as [|t rest IH]; [reflexivity |].
  simpl. rewrite callback_idle_silence; [exact IH | exact Hidle |].
  vm_compute. reflexivity.
Qed.

(** C2 on the code.  After 200 ms of speech the 22nd block of silence
    closes the recording and an utterance of 20000 samples (1.25 s: the
    four blocks of speech and the 21 buffered blocks of silence) is handed
    over; silence after that, at any times, changes nothing. *)
Theorem scenario_B_emits_an_utterance (later : list Q) :
  let self := run (run (init 16000) scenario_B)
                  (map (fun t => (silence_block, t)) later) in
  map (fun u => Z.of_nat (List.length u)) (queue.items (audio_queue self))
  = [20000]%Z /\
  Forall (fun u => MIN_DURATION < duration_of self u)
         (queue.items (audio_queue self)) /\
  is_recording self = false.
Proof.
  intros self. unfold self.
  rewrite run_idle_silence by (vm_compute; reflexivity).
  split; [vm_compute; reflexivity | split; [| vm_compute; reflexivity]].
  assert (Hall : forallb (fun u => Qgtb (duration_of (run (init 16000) scenario_B) u)
                                        MIN_DURATION)
                    (queue.items (audio_queue (run (init 16000) scenario_B)))
                = true) by (vm_compute; reflexivity).
  rewrite forallb_forall in Hall.
  apply Forall_forall. intros u Hin. apply Qgtb_lt, Hall, Hin.
Qed.

(** ** Device resolution *)

Section Resolution.




Lemma positive_channels (n : Z) : (0 <? n)%Z = (1 <=? n)%Z.
Proof. destruct (Z.ltb_spec 0 n), (Z.leb_spec 1 n); try reflexivity; lia. Qed.

Lemma py_index_nonneg {A} (l : list A) (k : Z) :
  (0 <= k)%Z -> py_index l k = nth_error l (Z.to_nat k).
Proof.
  intros Hk. unfold py_index.
  destruct (Z.leb_spec 0 k); [reflexivity | lia].
Qed.


(** The requested-id stage of the code is the first stage of the policy. *)
Lemma requested_stage (devices : list DeviceInfo) (id : Z) :
  (if ((0 <=? id) && (id <? Z.of_nat (List.length devices)))%Z then
     match py_index devices id with
     | Some dev =>
         if (0 <? max_input_channels dev)%Z then Some (Some id) else Some None
     | None => None
     end
   else Some None)
  = Some (if valid_input_id devices id then Some id else None).
Proof.
  unfold valid_input_id.
  destruct ((0 <=? id) && (id <? Z.of_nat (List.length devices)))%Z eqn:Hvalid;
    [| reflexivity].
  apply andb_prop in Hvalid. destruct Hvalid as [Hlo Hhi].
  apply Z.leb_le in Hlo. apply Z.ltb_lt in Hhi.
  rewrite py_index_nonneg by exact Hlo.
  destruct (nth_error devices (Z.to_nat id)) as [dev|] eqn:Hnth.
  - rewrite positive_channels. cbn.
    destruct (1 <=? max_input_channels dev)%Z; reflexivity.
  - apply nth_error_None in Hnth. lia.
Qed.

End Resolution.




(** ** Peak normalisation before transcription *)

Section Normalisation.

Lemma Qmax_either (a b : Q) : Qmax a b = a \/ Qmax a b = b.
Proof.
  unfold Qmax, GenericMinMax.gmax. destruct (a ?= b); auto.
Qed.

(** The running maximum bounds its start value and every element, and is
    one of them. *)
Lemma fold_max_spec (xs : list Q) (start : Q) :
  start <= fold_left Qmax xs start /\
  Forall (fun x => x <= fold_left Qmax xs start) xs /\
  In (fold_left Qmax xs start) (start :: xs).
Proof.
  revert start. induction xs as [|x xs IH]; intros start; cbn [fold_left].
  - split; [apply Qle_refl | split; [constructor | left; reflexivity]].
  - destruct (IH (Qmax start x)) as (Hstart & Hall & Hin).
    split; [| split].
    + eapply Qle_trans; [apply Q.le_max_l | exact Hstart].
    + constructor; [| exact Hall].
      eapply Qle_trans; [apply Q.le_max_r | exact Hstart].
    + destruct Hin as [Hhead | Htail].
      * rewrite <- Hhead.
        destruct (Qmax_either start x) as [Heq | Heq];
          rewrite Heq; [left | right; left]; reflexivity.
      * right; right; exact Htail.
Qed.

(** [np.abs(x).max()] of an array with elements: the largest absolute
    value, which one of the samples has. *)
Lemma peak_spec (audio_data : list Q) :
  audio_data <> [] ->
  exists peak,
    np.max (np.abs audio_data) = Some peak /\
    Forall (fun x => Qabs x <= peak) audio_data /\
    Exists (fun x => Qabs x = peak) audio_data.
Proof.
  destruct audio_data as [|x xs]; [congruence | intros _].
  cbn [np.abs np.max map]. eexists. split; [reflexivity |].
  destruct (fold_max_spec (map Qabs xs) (Qabs x)) as (Hstart & Hall & Hin).
  split.
  - constructor; [exact Hstart |].
    rewrite Forall_map in Hall. exact Hall.
  - destruct Hin as [Hhead | Htail].
    + apply Exists_cons_hd. exact Hhead.
    + apply Exists_cons_tl. apply in_map_iff in Htail.
      destruct Htail as (y & Hy & Hiny).
      apply Exists_exists. exists y. split; assumption.
Qed.

Lemma Qabs_zero_iff (x : Q) : Qabs x == 0 <-> x == 0.
Proof.
  split; intros H.
  - apply Qle_antisym.
    + eapply Qle_trans; [apply Qle_Qabs |]. rewrite H. apply Qle_refl.
    + assert (Hneg : - x <= 0).
      { eapply Qle_trans; [apply Qle_Qabs |].
        rewrite Qabs_opp, H. apply Qle_refl. }
      apply Qopp_le_compat in Hneg.
      rewrite Qopp_involutive in Hneg. exact Hneg.
  - rewrite H. reflexivity.
Qed.

Lemma Qabs_div_peak (x peak : Q) :
  0 < peak -> Qabs (x / peak) == Qabs x / peak.
Proof.
  intros Hpos. unfold Qdiv.
  rewrite Qabs_Qmult, Qabs_Qinv, (Qabs_pos peak) by (apply Qlt_le_weak, Hpos).
  reflexivity.
Qed.

End Normalisation.



(** Silence is passed on as it is. *)
Example all_zero_is_forwarded_unscaled :
  process_audio_chunk_immediate true 16000 [0; 0; 0]
  = Some ([0; 0; 0], 3 # 16000).
Proof. reflexivity. Qed.

(** Nothing is forwarded once the assistant has stopped, nor for an empty
    array. *)
Lemma nothing_forwarded_when_stopped (rate : positive) (audio_data : list Q) :
  process_audio_chunk_immediate false rate audio_data = None /\
  process_audio_chunk_immediate true rate [] = None.
Proof. split; reflexivity. Qed.

(** * Further properties of [Audio.py] *)

(** ** Device resolution: what comes back *)

Section ResolutionFacts.

Lemma first_index_sound (test : DeviceInfo -> bool) (devices : list DeviceInfo)
    (start i : Z) :
  first_index test devices start = Some i ->
  (start <= i)%Z /\
  exists dev, nth_error devices (Z.to_nat (i - start)) = Some dev /\
              test dev = true.
Proof.
  revert start. induction devices as [|dev rest IH]; intros start; cbn;
    [discriminate |].
  destruct (test dev) eqn:Htest.
  - intros [= <-]. split; [lia |]. exists dev.
    replace (start - start)%Z with 0%Z by lia. split; [reflexivity | exact Htest].
  - intros Hrest. destruct (IH _ Hrest) as (Hle & dev' & Hnth & Hok).
    split; [lia |]. exists dev'. split; [| exact Hok].
    replace (Z.to_nat (i - start)) with (S (Z.to_nat (i - (start + 1)))) by lia.
    exact Hnth.
Qed.

Lemma first_index_none (test : DeviceInfo -> bool) (devices : list DeviceInfo)
    (start : Z) :
  first_index test devices start = None <->
  Forall (fun dev => test dev = false) devices.
Proof.
  revert start. induction devices as [|dev rest IH]; intros start; cbn.
  - split; [constructor | reflexivity].
  - destruct (test dev) eqn:Htest.
    + split; [discriminate |]. intros Hall.
      inversion Hall; subst. congruence.
    + rewrite IH. split; [intros Hall; constructor; assumption |].
      intros Hall. inversion Hall; assumption.
Qed.

Lemma py_index_empty {A} (k : Z) : py_index (@nil A) k = None.
Proof.
  unfold py_index. cbn.
  destruct (0 <=? k)%Z eqn:Hk; [destruct (Z.to_nat k); reflexivity |].
  apply Z.leb_gt in Hk. destruct (Z.leb_spec 0 k); [lia | reflexivity].
Qed.

(** The body of [find_audio_device] in stages, with the exception of the
    default stage made explicit. *)
Lemma find_audio_device_stages (requested : option Z)
    (devices : list DeviceInfo) (default : option Z) :
  find_audio_device requested devices default
  = match (match requested with
           | Some id => if valid_input_id devices id then Some id else None
           | None => None
           end) with
    | Some id => Some id
    | None =>
        match first_index is_monitor devices 0 with
        | Some i => Some i
        | None =>
            match default with
            | Some d =>
                match py_index devices d with
                | Some _ => Some d
                | None => None
                end
            | None => first_index has_input devices 0
            end
        end
    end.
Proof.
  unfold find_audio_device, find_audio_device_try.
  destruct requested as [id|].
  - rewrite requested_stage.
    destruct (valid_input_id devices id); [reflexivity |].
    destruct (first_index is_monitor devices 0); [reflexivity |].
    destruct default as [d|]; [destruct (py_index devices d) |]; reflexivity.
  - destruct (first_index is_monitor devices 0); [reflexivity |].
    destruct default as [d|]; [destruct (py_index devices d) |]; reflexivity.
Qed.

End ResolutionFacts.

(** X1.  With no devices at all nothing is found, whatever was requested
    and whatever the default is, and [start_capture] gives up: it returns
    [False] and leaves the object as it was. *)
Theorem no_devices_no_capture (self : AudioCapture) (requested default : option Z)
    (outcome : open_outcome) :
  find_audio_device requested [] default = None /\
  start_capture self [] default outcome = (self, false).
Proof.
  assert (Hnone : forall r, find_audio_device r [] default = None).
  { intros r. rewrite find_audio_device_stages. cbn [first_index].
    assert (Hreq : match r with
                   | Some id => if valid_input_id [] id then Some id else None
                   | None => None
                   end = None).
    { destruct r as [id|]; [| reflexivity]. unfold valid_input_id. cbn.
      destruct (0 <=? id)%Z eqn:Hlo, (id <? 0)%Z eqn:Hhi; cbn; try reflexivity.
      apply Z.leb_le in Hlo. apply Z.ltb_lt in Hhi. lia. }
    rewrite Hreq. destruct default as [d|]; [| reflexivity].
    rewrite py_index_empty. reflexivity. }
  split; [apply Hnone |].
  unfold start_capture. rewrite Hnone. reflexivity.
Qed.

(** X2.  A device id that comes back names a device of the list (read as
    Python does, a negative id from the end).  Unless it is the default
    device, it is a plain index and the device has an input channel. *)
Theorem find_audio_device_sound
    (requested : option Z) (devices : list DeviceInfo) (default : option Z)
    (id : Z) :
  find_audio_device requested devices default = Some id ->
  exists dev,
    py_index devices id = Some dev /\
    (default = Some id \/
     ((0 <= id < Z.of_nat (List.length devices))%Z /\
      (0 < max_input_channels dev)%Z)).
Proof.
  rewrite find_audio_device_stages.
  assert (Hfound : forall test i,
            first_index test devices 0 = Some i ->
            (forall dev, test dev = true -> (0 < max_input_channels dev)%Z) ->
            exists dev, py_index devices i = Some dev /\
              (default = Some i \/
               ((0 <= i < Z.of_nat (List.length devices))%Z /\
                (0 < max_input_channels dev)%Z))).
  { intros test i Hfirst Htest.
    destruct (first_index_sound _ _ _ _ Hfirst) as (Hle & dev & Hnth & Hok).
    rewrite Z.sub_0_r in Hnth.
    exists dev. rewrite py_index_nonneg by exact Hle.
    split; [exact Hnth |]. right. split; [| apply Htest, Hok].
    assert (Hlt : (Z.to_nat i < List.length devices)%nat)
      by (apply nth_error_Some; congruence).
    lia. }
  destruct (match requested with
            | Some rid => if valid_input_id devices rid then Some rid else None
            | None => None
            end) as [rid|] eqn:Hreq.
  - intros [= ->].
    destruct requested as [rid|]; [| discriminate].
    destruct (valid_input_id devices rid) eqn:Hvalid; [| discriminate].
    injection Hreq as ->.
    unfold valid_input_id in Hvalid.
    apply andb_prop in Hvalid. destruct Hvalid as [Hrange Hinput].
    apply andb_prop in Hrange. destruct Hrange as [Hlo Hhi].
    apply Z.leb_le in Hlo. apply Z.ltb_lt in Hhi.
    destruct (nth_error devices (Z.to_nat id)) as [dev|] eqn:Hnth;
      [| discriminate].
    apply Z.leb_le in Hinput.
    exists dev. rewrite py_index_nonneg by exact Hlo.
    split; [exact Hnth | right; split; lia].
  - destruct (first_index is_monitor devices 0) as [i|] eqn:Hmonitor.
    + intros [= <-]. apply (Hfound is_monitor i Hmonitor).
      intros dev Hdev. unfold is_monitor in Hdev.
      apply andb_prop in Hdev. apply Z.ltb_lt, Hdev.
    + destruct default as [d|].
      * destruct (py_index devices d) as [dev|] eqn:Hdefault; [| discriminate].
        intros [= <-]. exists dev. split; [exact Hdefault | left; reflexivity].
      * intros Hinput. apply (Hfound has_input id Hinput).
        intros dev Hdev. apply Z.ltb_lt, Hdev.
Qed.

(** The default device is handed back even when it has no input channel,
    here with a microphone further down the list. *)
Lemma find_audio_device_sound_witness :
  let devices := [mkDevice "Built-in Speakers" 0; mkDevice "USB Microphone" 1] in
  exists dev,
    py_index devices 0 = Some dev /\
    max_input_channels dev = 0%Z /\
    find_audio_device None devices (Some 0%Z) = Some 0%Z.
Proof.
  intros devices.
  assert (Hrun : find_audio_device None devices (Some 0%Z) = Some 0%Z)
    by reflexivity.
  destruct (find_audio_device_sound None devices (Some 0%Z) 0 Hrun)
    as (dev & Hdev & _).
  exists dev. split; [exact Hdev |]. split; [| exact Hrun].
  cbn in Hdev. injection Hdev as <-. reflexivity.
Defined.

(** X3.  When no default device is reported, resolution comes back with
    nothing exactly when no device of the list has an input channel. *)
Theorem find_audio_device_none_iff
    (requested : option Z) (devices : list DeviceInfo) :
  find_audio_device requested devices None = None <->
  Forall (fun dev => (max_input_channels dev <= 0)%Z) devices.
Proof.
  rewrite find_audio_device_stages.
  assert (Hinput : first_index has_input devices 0 = None <->
                   Forall (fun dev => (max_input_channels dev <= 0)%Z) devices).
  { rewrite first_index_none. split; intros Hall;
      (eapply Forall_impl; [| exact Hall]); intros dev Hdev; cbn in *;
      unfold has_input in *.
    - apply Z.ltb_ge. exact Hdev.
    - apply Z.ltb_ge. exact Hdev. }
  split.
  - destruct (match requested with
              | Some rid => if valid_input_id devices rid then Some rid else None
              | None => None
              end); [discriminate |].
    destruct (first_index is_monitor devices 0); [discriminate |].
    apply Hinput.
  - intros Hall.
    assert (Hreq : match requested with
                   | Some rid => if valid_input_id devices rid then Some rid else None
                   | None => None
                   end = None).
    { destruct requested as [rid|]; [| reflexivity].
      unfold valid_input_id.
      destruct ((0 <=? rid) && (rid <? Z.of_nat (List.length devices)))%Z;
        [| reflexivity]; cbn [andb].
      destruct (nth_error devices (Z.to_nat rid)) as [dev|] eqn:Hnth;
        [| reflexivity].
      apply nth_error_In in Hnth. rewrite Forall_forall in Hall.
      specialize (Hall dev Hnth). cbn in Hall.
      destruct (Z.leb_spec 1 (max_input_channels dev)); [lia | reflexivity]. }
    rewrite Hreq.
    assert (Hmonitor : first_index is_monitor devices 0 = None).
    { apply first_index_none. eapply Forall_impl; [| exact Hall].
      intros dev Hdev. cbn in Hdev. unfold is_monitor.
      destruct (Z.ltb_spec 0 (max_input_channels dev)); [lia |].
      apply andb_false_r. }
    rewrite Hmonitor. apply Hinput, Hall.
Qed.

(** ** The recorder between blocks *)

Section Recorder.

Lemma callback_recording_inv self indata current_time :
  recording_inv self -> recording_inv (callback self indata current_time).
Proof.
  unfold recording_inv. intros Hinv.
  assert (Hgrow : forall (blocks : list (list Q)) block, blocks ++ [block] <> [])
    by (intros blocks block Hnil; apply app_eq_nil in Hnil;
        destruct Hnil; discriminate).
  callback_cases self indata; cbn; rewrite ?Hrec; try (intros; discriminate);
    try exact Hinv; intros _;
    try (destruct (Hinv eq_refl) as (Hb & Hs & Hv));
    repeat split; try assumption; try discriminate; apply Hgrow.
Qed.

Lemma reachable_recording_inv self : reachable self -> recording_inv self.
Proof.
  induction 1 as [rate | self id _ IH | self devices default outcome _ IH
                 | self indata current_time _ IH | self _ IH | self _ IH].
  - intros Hrec. discriminate.
  - exact IH.
  - unfold start_capture.
    destruct (find_audio_device _ _ _); [destruct outcome |]; exact IH.
  - apply callback_recording_inv, IH.
  - unfold consumer_get. destruct (is_capturing self); [| exact IH].
    destruct (queue.get_nowait (audio_queue self)) as [[u q]|]; exact IH.
  - unfold recording_inv.
    destruct (stop_keeps_segment self) as (-> & -> & _).
    rewrite (stop_shape self). cbn. exact IH.
Qed.

End Recorder.

(** X4.  In every reachable state that is recording, the buffer holds at
    least one block, its concatenation has samples, and the start time and
    the last voice time are set: the two tests on the length of the buffer,
    in the callback and in [stop], never fail while recording. *)
Theorem recording_has_buffer (self : AudioCapture) :
  reachable self ->
  is_recording self = true ->
  audio_buffer self <> [] /\
  np.concatenate (audio_buffer self) <> [] /\
  buffer_start_time self <> None /\
  last_voice_time self <> None.
Proof.
  intros Hreach Hrec.
  destruct (reachable_recording_inv self Hreach Hrec) as (Hbuf & Hstart & Hvoice).
  destruct (reachable_well_formed self Hreach) as [_ Hblocks].
  repeat split; try assumption.
  apply concatenate_nonempty; assumption.
Qed.

Lemma recording_has_buffer_witness :
  audio_buffer mid_utterance <> [] /\
  np.concatenate (audio_buffer mid_utterance) <> [] /\
  buffer_start_time mid_utterance <> None /\
  last_voice_time mid_utterance <> None.
Proof.
  apply recording_has_buffer.
  - apply reachable_run, reach_init.
  - vm_compute. reflexivity.
Defined.

Lemma Qgtb_self_limit (t : Q) : Qgtb (t - t) SILENCE_LIMIT = false.
Proof.
  apply Qgtb_le. setoid_replace (t - t) with 0 by ring. discriminate.
Qed.



Section Runs.

Lemma is_speech_block_spec (indata : np.ndarray) :
  is_speech_block indata = true ->
  (0 < np.size indata)%nat /\
  np.rms_gt (audio_mono_of indata) VOICE_THRESHOLD = true.
Proof.
  unfold is_speech_block. intros H. apply andb_prop in H.
  destruct H as [Hsize Hloud]. apply Nat.ltb_lt in Hsize. auto.
Qed.

Lemma is_silence_block_spec (indata : np.ndarray) :
  is_silence_block indata = true ->
  (0 < np.size indata)%nat /\
  np.rms_gt (audio_mono_of indata) VOICE_THRESHOLD = false.
Proof.
  unfold is_silence_block. intros H. apply andb_prop in H.
  destruct H as [Hsize Hquiet]. apply Nat.ltb_lt in Hsize.
  apply negb_true_iff in Hquiet. auto.
Qed.

(** One block of speech: the queue is left alone. *)
Lemma callback_speech_queue self indata current_time :
  is_speech_block indata = true ->
  audio_queue (callback self indata current_time) = audio_queue self.
Proof.
  intros Hspeech. destruct (is_speech_block_spec _ Hspeech) as [Hsize Hloud].
  destruct (callback_speech self indata current_time Hsize Hloud) as (Hon & _).
  apply callback_keeps_recording, Hon.
Qed.

(** Speech after speech, from a recorder that records already. *)
Lemma run_speech_recording (blocks : list (np.ndarray * Q)) (self : AudioCapture) :
  is_recording self = true ->
  Forall (fun block => is_speech_block (fst block) = true) blocks ->
  is_recording (run self blocks) = true /\
  audio_queue (run self blocks) = audio_queue self /\
  audio_buffer (run self blocks)
  = audio_buffer self ++ map (fun block => audio_mono_of (fst block)) blocks /\
  (blocks <> [] -> silence_start_time (run self blocks) = None).
Proof.
  revert self. induction blocks as [|[indata current_time] rest IH];
    intros self Hon Hall.
  - cbn. rewrite app_nil_r. repeat split; try assumption. congruence.
  - inversion Hall as [|? ? Hspeech Hrest]; subst. cbn [fst] in Hspeech.
    destruct (is_speech_block_spec _ Hspeech) as [Hsize Hloud].
    destruct (callback_speech self indata current_time Hsize Hloud)
      as (Hon1 & Hclock1 & _ & Hbuffer1).
    rewrite Hon in Hbuffer1.
    destruct (IH _ Hon1 Hrest) as (Hon2 & Hqueue2 & Hbuffer2 & Hclock2).
    simpl run. repeat split.
    + exact Hon2.
    + rewrite Hqueue2. apply callback_speech_queue, Hspeech.
    + rewrite Hbuffer2, Hbuffer1. cbn [map fst]. rewrite <- app_assoc. reflexivity.
    + intros _. destruct rest as [|next rest'].
      * exact Hclock1.
      * apply Hclock2. discriminate.
Qed.

(** Silence within the second, from a recorder whose silence clock runs. *)
Lemma run_pause_recording (blocks : list (np.ndarray * Q)) (self : AudioCapture)
    (started : Q) :
  is_recording self = true ->
  silence_start_time self = Some started ->
  Forall (fun block => is_silence_block (fst block) = true /\
                       snd block - started <= SILENCE_LIMIT) blocks ->
  is_recording (run self blocks) = true /\
  silence_start_time (run self blocks) = Some started /\
  audio_queue (run self blocks) = audio_queue self /\
  audio_buffer (run self blocks)
  = audio_buffer self ++ map (fun block => audio_mono_of (fst block)) blocks.
Proof.
  revert self. induction blocks as [|[indata current_time] rest IH];
    intros self Hon Hclock Hall.
  - cbn. rewrite app_nil_r. auto.
  - inversion Hall as [|? ? [Hquiet Hearly] Hrest]; subst. cbn [fst snd] in *.
    destruct (is_silence_block_spec _ Hquiet) as [Hsize Hlow].
    apply Nat.ltb_lt in Hsize. apply Qgtb_le in Hearly.
    assert (Hstep : callback self indata current_time
                    = set_audio_buffer (audio_buffer self ++ [audio_mono_of indata])
                        self).
    { unfold callback. rewrite Hsize, Hlow, Hon, Hclock. cbn -[Nat.ltb].
      rewrite Hearly, andb_false_r.
      destruct self; cbn in Hclock |- *. rewrite Hclock. reflexivity. }
    simpl run. rewrite Hstep.
    destruct (IH (set_audio_buffer (audio_buffer self ++ [audio_mono_of indata]) self)
                 Hon Hclock Hrest) as (Hon2 & Hclock2 & Hqueue2 & Hbuffer2).
    repeat split; try assumption.
    rewrite Hbuffer2. cbn [audio_buffer set_audio_buffer map fst].
    rewrite <- app_assoc. reflexivity.
Qed.

End Runs.

(** X6.  Speech that does not stop is never handed over: over any run of
    blocks that are all speech the queue is left alone, the recorder is
    recording afterwards with a cleared silence clock, and the buffer has
    grown by every one of the blocks (after being emptied first when the
    recorder was idle).  There is no longest utterance. *)
Theorem unbroken_speech_is_buffered
    (self : AudioCapture) (blocks : list (np.ndarray * Q)) :
  blocks <> [] ->
  Forall (fun block => is_speech_block (fst block) = true) blocks ->
  let after := run self blocks in
  is_recording after = true /\
  silence_start_time after = None /\
  audio_queue after = audio_queue self /\
  audio_buffer after
  = (if is_recording self then audio_buffer self else [])
      ++ map (fun block => audio_mono_of (fst block)) blocks.
Proof.
  destruct blocks as [|[indata current_time] rest]; [congruence |].
  intros _ Hall after.
  inversion Hall as [|? ? Hspeech Hrest]; subst. cbn [fst] in Hspeech.
  destruct (is_speech_block_spec _ Hspeech) as [Hsize Hloud].
  destruct (callback_speech self indata current_time Hsize Hloud)
    as (Hon1 & Hclock1 & _ & Hbuffer1).
  destruct (run_speech_recording rest _ Hon1 Hrest)
    as (Hon2 & Hqueue2 & Hbuffer2 & Hclock2).
  unfold after. simpl run. repeat split.
  - exact Hon2.
  - destruct rest as [|next rest']; [exact Hclock1 | apply Hclock2; discriminate].
  - rewrite Hqueue2. apply callback_speech_queue, Hspeech.
  - rewrite Hbuffer2, Hbuffer1. cbn [map fst]. rewrite <- app_assoc. reflexivity.
Qed.

(** Ten seconds of speech from the fresh state: 200 blocks buffered,
    nothing handed over. *)
Lemma unbroken_speech_is_buffered_witness :
  let after := run (init 16000) (stamp 0 (repeat speech_block 200)) in
  queue.items (audio_queue after) = [] /\
  Z.of_nat (List.length (audio_buffer after)) = 200%Z.
Proof.
  intros after.
  assert (Hsome : stamp 0 (repeat speech_block 200) <> [])
    by (vm_compute; discriminate).
  assert (Hall : Forall (fun block => is_speech_block (fst block) = true)
                        (stamp 0 (repeat speech_block 200))).
  { apply Forall_forall. intros [indata t] Hin. cbn [fst].
    unfold stamp in Hin. apply in_combine_l in Hin.
    apply repeat_spec in Hin. subst. vm_compute. reflexivity. }
  destruct (unbroken_speech_is_buffered (init 16000) _ Hsome Hall)
    as (_ & _ & Hqueue & Hbuffer).
  fold after in Hqueue, Hbuffer.
  split; [rewrite Hqueue; reflexivity |].
  rewrite Hbuffer. cbn [is_recording init app].
  rewrite length_map. unfold stamp. rewrite length_combine, length_map, length_seq.
  rewrite Nat.min_id, repeat_length. reflexivity.
Defined.

(** X7.  A pause of up to one second does not split an utterance: when a
    recorder in active speech gets blocks of silence that all come within
    a second of the first of them, it is still recording afterwards, the
    queue is left alone, the silence clock shows the time of the first of
    them and all of them are in the buffer. *)
Theorem short_pause_is_kept
    (self : AudioCapture) (indata : np.ndarray) (pause_start : Q)
    (rest : list (np.ndarray * Q)) :
  is_recording self = true ->
  silence_start_time self = None ->
  Forall (fun block => is_silence_block (fst block) = true /\
                       snd block - pause_start <= SILENCE_LIMIT)
         ((indata, pause_start) :: rest) ->
  let after := run self ((indata, pause_start) :: rest) in
  is_recording after = true /\
  silence_start_time after = Some pause_start /\
  audio_queue after = audio_queue self /\
  audio_buffer after
  = audio_buffer self
      ++ map (fun block => audio_mono_of (fst block)) ((indata, pause_start) :: rest).
Proof.
  intros Hon Hclock Hall after.
  inversion Hall as [|? ? [Hquiet _] Hrest]; subst. cbn [fst snd] in *.
  destruct (is_silence_block_spec _ Hquiet) as [Hsize Hlow].
  apply Nat.ltb_lt in Hsize.
  assert (Hstep : callback self indata pause_start
                  = set_audio_buffer (audio_buffer self ++ [audio_mono_of indata])
                      (set_silence_start_time (Some pause_start) self)).
  { unfold callback. rewrite Hsize, Hlow, Hon, Hclock. cbn -[Nat.ltb].
    rewrite Qgtb_self_limit, andb_false_r. reflexivity. }
  unfold after. simpl run. rewrite Hstep.
  destruct (run_pause_recording rest
              (set_audio_buffer (audio_buffer self ++ [audio_mono_of indata])
                 (set_silence_start_time (Some pause_start) self))
              pause_start Hon eq_refl Hrest)
    as (Hon2 & Hclock2 & Hqueue2 & Hbuffer2).
  repeat split; try assumption.
  rewrite Hbuffer2. cbn [audio_buffer set_audio_buffer map fst].
  rewrite <- app_assoc. reflexivity.
Qed.

(** Scenario D followed by 21 blocks of silence, the last one exactly a
    second after the first: still recording, 31 blocks buffered. *)
Lemma short_pause_is_kept_witness :
  let pause := stamp 10 (repeat silence_block 21) in
  is_recording (run mid_utterance pause) = true /\
  Z.of_nat (List.length (audio_buffer (run mid_utterance pause))) = 31%Z.
Proof.
  intros pause.
  assert (Hon : is_recording mid_utterance = true) by (vm_compute; reflexivity).
  assert (Hclock : silence_start_time mid_utterance = None)
    by (vm_compute; reflexivity).
  assert (Hall : Forall (fun block => is_silence_block (fst block) = true /\
                                      snd block - (inject_Z 10 * (1 # 20))
                                      <= SILENCE_LIMIT)
                        ((silence_block, inject_Z 10 * (1 # 20))
                           :: stamp 11 (repeat silence_block 20))).
  { assert (Hcheck :
      forallb (fun block => is_silence_block (fst block)
                            && Qle_bool (snd block - (inject_Z 10 * (1 # 20)))
                                        SILENCE_LIMIT)
              ((silence_block, inject_Z 10 * (1 # 20))
                 :: stamp 11 (repeat silence_block 20)) = true)
      by (vm_compute; reflexivity).
    rewrite forallb_forall in Hcheck. apply Forall_forall.
    intros block Hin. specialize (Hcheck block Hin).
    apply andb_prop in Hcheck. destruct Hcheck as [Hquiet Hearly].
    split; [exact Hquiet | apply Qle_bool_iff, Hearly]. }
  destruct (short_pause_is_kept mid_utterance silence_block
              (inject_Z 10 * (1 # 20)) (stamp 11 (repeat silence_block 20))
              Hon Hclock Hall) as (Hon2 & _ & _ & Hbuffer).
  split; [exact Hon2 |].
  change pause with ((silence_block, inject_Z 10 * (1 # 20))
                       :: stamp 11 (repeat silence_block 20)).
  rewrite Hbuffer, length_app, length_map.
  replace (List.length (audio_buffer mid_utterance)) with 10%nat
    by (vm_compute; reflexivity).
  reflexivity.
Defined.

(** ** The consumer *)

Lemma set_audio_queue_same (self : AudioCapture) :
  set_audio_queue
    (queue.mkQueue (queue.maxsize (audio_queue self))
                   (queue.items (audio_queue self))) self = self.
Proof. destruct self as [rate str cap [m l] task dev buf bst lvt sst rec]. reflexivity. Qed.

(** The consumer loop, round by round. *)
Lemma process_audio_queue_spec
    (rounds : nat) (is_running : bool) (self : AudioCapture) :
  is_capturing self = true ->
  process_audio_queue rounds is_running self
  = (flat_map (fun utterance =>
                 match process_audio_chunk_immediate is_running
                         (sample_rate self) utterance with
                 | Some call => [call]
                 | None => []
                 end)
              (firstn rounds (queue.items (audio_queue self))),
     set_audio_queue
       (queue.mkQueue (queue.maxsize (audio_queue self))
                      (skipn rounds (queue.items (audio_queue self)))) self).
Proof.
  revert self. induction rounds as [|rounds IH]; intros self Hcap.
  - cbn. rewrite set_audio_queue_same. reflexivity.
  - cbn [process_audio_queue]. rewrite Hcap. unfold consumer_get. rewrite Hcap.
    unfold queue.get_nowait.
    destruct self as [rate str cap [m pending] task dev buf bst lvt sst rec].
    cbn in Hcap. subst cap. cbn [audio_queue queue.items queue.maxsize sample_rate].
    destruct pending as [|utterance later].
    + rewrite IH by reflexivity.
      cbn [set_audio_queue audio_queue queue.items queue.maxsize sample_rate].
      rewrite firstn_nil, skipn_nil. reflexivity.
    + rewrite IH by reflexivity.
      cbn [set_audio_queue audio_queue queue.items queue.maxsize sample_rate
           firstn skipn flat_map].
      f_equal. f_equal.
      destruct utterance as [|x xs]; [| reflexivity].
      cbn. destruct is_running; reflexivity.
Qed.

(** X8.  While capturing, the consumer loop takes the pending utterances
    oldest first, one per round: after [rounds] rounds the transcription
    step has been called once for each of the first [rounds] pending
    utterances that has samples (none of them while the assistant is not
    running), in the order they were put, and exactly the later ones are
    still pending. *)
Theorem consumer_forwards_in_order
    (rounds : nat) (is_running : bool) (self : AudioCapture) :
  is_capturing self = true ->
  process_audio_queue rounds is_running self
  = (flat_map (fun utterance =>
                 match process_audio_chunk_immediate is_running
                         (sample_rate self) utterance with
                 | Some call => [call]
                 | None => []
                 end)
              (firstn rounds (queue.items (audio_queue self))),
     set_audio_queue
       (queue.mkQueue (queue.maxsize (audio_queue self))
                      (skipn rounds (queue.items (audio_queue self)))) self).
Proof. apply process_audio_queue_spec. Qed.

(** Three utterances pending, the middle one without samples: two calls,
    in order, and nothing left. *)
Lemma consumer_forwards_in_order_witness :
  let self :=
    set_audio_queue (queue.mkQueue 0 [[1 # 2]; []; [1 # 4; 1 # 8]])
      (set_is_capturing true (init 16000)) in
  fst (process_audio_queue 3 true self)
  = [([(1 # 2) / (1 # 2)], 1 # 16000);
     ([(1 # 4) / (1 # 4); (1 # 8) / (1 # 4)], 2 # 16000)] /\
  queue.items (audio_queue (snd (process_audio_queue 3 true self))) = [].
Proof.
  intros self.
  rewrite (consumer_forwards_in_order 3 true self eq_refl).
  split; reflexivity.
Defined.

(** X9.  What [stop] flushes is not transcribed: when [stop] returns
    from a reachable state that was recording, the flushed utterance is in
    the queue, and rounds of the consumer loop that begin after that make
    no call and take nothing out, however many they are. *)
Theorem flushed_utterance_is_not_consumed
    (self : AudioCapture) (rounds : nat) (is_running : bool) :
  reachable self ->
  is_recording self = true ->
  process_audio_queue rounds is_running (stop self) = ([], stop self) /\
  In (np.concatenate (audio_buffer self)) (queue.items (audio_queue (stop self))).
Proof.
  intros Hreach Hon. split.
  - destruct rounds as [|rounds]; [reflexivity |].
    cbn [process_audio_queue]. rewrite stop_not_capturing. reflexivity.
  - destruct (reachable_recording_inv self Hreach Hon) as (Hbuf & _).
    rewrite stop_queue_flush;
      [| apply reachable_well_formed, Hreach | exact Hon | exact Hbuf].
    cbn. apply in_or_app. right. left. reflexivity.
Qed.

Lemma flushed_utterance_is_not_consumed_witness :
  fst (process_audio_queue 10 true (stop mid_utterance)) = [] /\
  queue.items (audio_queue (snd (process_audio_queue 10 true (stop mid_utterance))))
  <> [].
Proof.
  assert (Hreach : reachable mid_utterance) by (apply reachable_run, reach_init).
  assert (Hon : is_recording mid_utterance = true) by (vm_compute; reflexivity).
  destruct (flushed_utterance_is_not_consumed mid_utterance 10 true Hreach Hon)
    as [Hloop Hpending].
  rewrite Hloop. split; [reflexivity |].
  cbn [snd]. intros Hempty. rewrite Hempty in Hpending. exact Hpending.
Defined.

(** X10.  With nothing in progress (the recorder idle, or its buffer
    empty) [stop] does not touch the queue, and a second [stop] changes
    nothing at all. *)
Theorem stop_idle_is_idempotent (self : AudioCapture) :
  is_recording self = false \/ audio_buffer self = [] ->
  audio_queue (stop self) = audio_queue self /\
  stop (stop self) = stop self.
Proof.
  intros Hnothing.
  assert (Hq : audio_queue (stop self) = audio_queue self)
    by (apply stop_queue_idle; exact Hnothing).
  split; [exact Hq |].
  destruct (stop_keeps_segment self) as (Hrec & Hbuf & _).
  rewrite stop_twice_rest.
  rewrite (stop_queue_idle (stop self)) by (rewrite Hrec, Hbuf; exact Hnothing).
  destruct (stop self) as [rate str cap [m l] task dev buf bst lvt sst rec].
  reflexivity.
Qed.

(** After Scenario A the recorder is idle with one utterance pending:
    [stop] leaves it pending, once. *)
Lemma stop_idle_is_idempotent_witness :
  let self := run (init 16000) scenario_A in
  audio_queue (stop self) = audio_queue self /\
  stop (stop self) = stop self.
Proof.
  apply stop_idle_is_idempotent. left. vm_compute. reflexivity.
Defined.

(** * Further properties of [pipeline.py] *)

(** ** Normalisation *)

Section Gain.

(** The call for an utterance with samples, in terms of its peak. *)
Lemma process_running (rate : positive) (audio_data : list Q) :
  audio_data <> [] ->
  exists peak,
    np.max (np.abs audio_data) = Some peak /\
    Forall (fun x => Qabs x <= peak) audio_data /\
    Exists (fun x => Qabs x = peak) audio_data /\
    0 <= peak /\
    process_audio_chunk_immediate true rate audio_data
    = Some (if Qgtb peak 0 then map (fun x => x / peak) audio_data
            else audio_data,
            inject_Z (Z.of_nat (List.length audio_data)) / inject_Z (Z.pos rate)).
Proof.
  intros Hsome.
  destruct (peak_spec audio_data Hsome) as (peak & Hmax & Hbound & Hattained).
  exists peak. repeat split; try assumption.
  - apply Exists_exists in Hattained. destruct Hattained as (x & _ & <-).
    apply Qabs_nonneg.
  - unfold process_audio_chunk_immediate. rewrite Hmax.
    destruct audio_data; [congruence | reflexivity].
Qed.

Lemma Qgtb_compat (a b : Q) : a == b -> Qgtb a 0 = Qgtb b 0.
Proof.
  intros Hab. destruct (Qgtb b 0) eqn:Hb.
  - apply Qgtb_lt. apply Qgtb_lt in Hb. rewrite Hab. exact Hb.
  - apply Qgtb_le. apply Qgtb_le in Hb. rewrite Hab. exact Hb.
Qed.

(** The peak is determined, as a number, by being a bound that is
    attained. *)
Lemma peak_unique (xs : list Q) (p q : Q) :
  Forall (fun x => Qabs x <= p) xs -> Exists (fun x => Qabs x == p) xs ->
  Forall (fun x => Qabs x <= q) xs -> Exists (fun x => Qabs x == q) xs ->
  p == q.
Proof.
  intros Hp Hpa Hq Hqa.
  rewrite Forall_forall in Hp, Hq. apply Exists_exists in Hpa, Hqa.
  destruct Hpa as (x & Hx & Hxp), Hqa as (y & Hy & Hyq).
  apply Qle_antisym.
  - rewrite <- Hxp. apply Hq, Hx.
  - rewrite <- Hyq. apply Hp, Hy.
Qed.

Lemma Forall2_map_both {A B} (R : B -> B -> Prop) (f g : A -> B) (l : list A) :
  (forall a, In a l -> R (f a) (g a)) -> Forall2 R (map f l) (map g l).
Proof.
  induction l as [|a l IH]; intros H; cbn; constructor.
  - apply H. left. reflexivity.
  - apply IH. intros b Hb. apply H. right. exact Hb.
Qed.

End Gain.

(** X11.  The gain of the capture does not reach the transcriber: an
    utterance and the same utterance with every sample multiplied by a
    positive factor are forwarded as the same numbers, with the same
    duration. *)
Theorem normalisation_removes_gain
    (rate : positive) (gain : Q) (audio_data : list Q) :
  0 < gain ->
  audio_data <> [] ->
  exists forwarded louder duration,
    process_audio_chunk_immediate true rate audio_data
    = Some (forwarded, duration) /\
    process_audio_chunk_immediate true rate (map (Qmult gain) audio_data)
    = Some (louder, duration) /\
    Forall2 Qeq louder forwarded.
Proof.
  intros Hgain Hsome.
  assert (Hsome' : map (Qmult gain) audio_data <> [])
    by (destruct audio_data; [congruence | discriminate]).
  destruct (process_running rate audio_data Hsome)
    as (peak & _ & Hbound & Hattained & Hpos & Hcall).
  destruct (process_running rate _ Hsome')
    as (peak' & _ & Hbound' & Hattained' & Hpos' & Hcall').
  rewrite length_map in Hcall'.
  assert (Hscale : forall x, Qabs (gain * x) == gain * Qabs x)
    by (intros x; rewrite Qabs_Qmult, (Qabs_pos gain) by (apply Qlt_le_weak, Hgain);
        reflexivity).
  assert (Hpeak : peak' == gain * peak).
  { apply (peak_unique (map (Qmult gain) audio_data)).
    - exact Hbound'.
    - eapply Exists_impl; [| exact Hattained']. intros y ->. reflexivity.
    - rewrite Forall_map. eapply Forall_impl; [| exact Hbound].
      intros x Hx. cbn in Hx. rewrite Hscale.
      rewrite (Qmult_comm gain (Qabs x)), (Qmult_comm gain peak).
      apply Qmult_le_compat_r; [exact Hx | apply Qlt_le_weak, Hgain].
    - rewrite Exists_map. eapply Exists_impl; [| exact Hattained].
      intros x Hx. cbn in Hx. rewrite Hscale, Hx. reflexivity. }
  do 3 eexists. split; [exact Hcall | split; [exact Hcall' |]].
  destruct (Qgtb peak 0) eqn:Hloud.
  - apply Qgtb_lt in Hloud.
    assert (Hloud' : Qgtb peak' 0 = true).
    { apply Qgtb_lt. rewrite Hpeak.
      setoid_replace 0 with (gain * 0) by ring.
      apply Qmult_lt_l; assumption. }
    rewrite Hloud', map_map. apply Forall2_map_both.
    intros x _. rewrite Hpeak. field. split.
    + intros Hzero. rewrite Hzero in Hloud. exact (Qlt_irrefl 0 Hloud).
    + intros Hzero. rewrite Hzero in Hgain. exact (Qlt_irrefl 0 Hgain).
  - apply Qgtb_le in Hloud.
    assert (Hzero : peak == 0) by (apply Qle_antisym; assumption).
    assert (Hquiet' : Qgtb peak' 0 = false).
    { apply Qgtb_le. rewrite Hpeak, Hzero. rewrite Qmult_0_r. apply Qle_refl. }
    rewrite Hquiet'.
    rewrite <- (map_id audio_data) at 2. apply Forall2_map_both.
    intros x Hin. rewrite Forall_forall in Hbound.
    assert (Hx : x == 0).
    { apply Qabs_zero_iff. apply Qle_antisym; [| apply Qabs_nonneg].
      rewrite <- Hzero. apply Hbound, Hin. }
    rewrite Hx. ring.
Qed.

(** The same three samples, and three times as loud. *)
Lemma normalisation_removes_gain_witness :
  exists forwarded louder duration,
    process_audio_chunk_immediate true 16000 [1 # 10; - (1 # 5); 0]
    = Some (forwarded, duration) /\
    process_audio_chunk_immediate true 16000
      (map (Qmult 3) [1 # 10; - (1 # 5); 0])
    = Some (louder, duration) /\
    Forall2 Qeq louder forwarded.
Proof.
  apply (normalisation_removes_gain 16000 3 [1 # 10; - (1 # 5); 0]).
  - reflexivity.
  - discriminate.
Defined.

(** X12.  Normalisation is idempotent and keeps every sample in its
    place: what is forwarded has as many samples as the utterance, and
    passing it through the step again gives the same numbers. *)
Theorem normalisation_is_idempotent (rate : positive) (audio_data : list Q) :
  audio_data <> [] ->
  exists forwarded again duration,
    process_audio_chunk_immediate true rate audio_data
    = Some (forwarded, duration) /\
    List.length forwarded = List.length audio_data /\
    duration == duration_of (init rate) audio_data /\
    process_audio_chunk_immediate true rate forwarded = Some (again, duration) /\
    Forall2 Qeq again forwarded.
Proof.
  intros Hsome.
  destruct (process_running rate audio_data Hsome)
    as (peak & _ & Hbound & Hattained & Hpos & Hcall).
  set (forwarded := if Qgtb peak 0 then map (fun x => x / peak) audio_data
                    else audio_data) in *.
  assert (Hlen : List.length forwarded = List.length audio_data)
    by (unfold forwarded; destruct (Qgtb peak 0); [apply length_map | reflexivity]).
  assert (Hsome' : forwarded <> [])
    by (intros Hnil; rewrite Hnil in Hlen; destruct audio_data;
        [congruence | discriminate]).
  destruct (process_running rate forwarded Hsome')
    as (peak' & _ & Hbound' & Hattained' & Hpos' & Hcall').
  rewrite Hlen in Hcall'.
  do 3 eexists.
  split; [exact Hcall | split; [exact Hlen | split; [reflexivity |]]].
  split; [exact Hcall' |].
  rewrite <- (map_id forwarded) at 3.
  destruct (Qgtb peak' 0) eqn:Hloud';
    [| rewrite <- (map_id forwarded) at 1; apply Forall2_map_both;
       intros; reflexivity].
  apply Forall2_map_both.
  intros y _.
  assert (Hone : peak' == 1).
  { unfold forwarded in Hbound', Hattained', Hloud'.
    destruct (Qgtb peak 0) eqn:Hloud.
    - apply Qgtb_lt in Hloud.
      apply (peak_unique (map (fun x => x / peak) audio_data)).
      + exact Hbound'.
      + eapply Exists_impl; [| exact Hattained']. intros z ->. reflexivity.
      + rewrite Forall_map. eapply Forall_impl; [| exact Hbound].
        intros x Hx. cbn in Hx. rewrite Qabs_div_peak by exact Hloud.
        apply Qle_shift_div_r; [exact Hloud |]. rewrite Qmult_1_l. exact Hx.
      + rewrite Exists_map. eapply Exists_impl; [| exact Hattained].
        intros x Hx. cbn in Hx. rewrite Qabs_div_peak by exact Hloud.
        rewrite Hx. apply Qmult_inv_r.
        intros Hzero. rewrite Hzero in Hloud. exact (Qlt_irrefl 0 Hloud).
    - exfalso. apply Qgtb_le in Hloud. apply Qgtb_lt in Hloud'.
      assert (Hsame : peak' == peak).
      { apply (peak_unique audio_data); try assumption.
        - eapply Exists_impl; [| exact Hattained']. intros z ->. reflexivity.
        - eapply Exists_impl; [| exact Hattained]. intros z ->. reflexivity. }
      rewrite Hsame in Hloud'.
      exact (Qlt_irrefl 0 (Qlt_le_trans _ _ _ Hloud' Hloud)). }
  rewrite Hone. unfold Qdiv. change (/ 1) with 1. apply Qmult_1_r.
Qed.

(** The three samples of before go out as 1/2, -1 and 0, and again. *)
Lemma normalisation_is_idempotent_witness :
  exists forwarded again duration,
    process_audio_chunk_immediate true 16000 [1 # 10; - (1 # 5); 0]
    = Some (forwarded, duration) /\
    List.length forwarded = 3%nat /\
    duration == duration_of (init 16000) [1 # 10; - (1 # 5); 0] /\
    process_audio_chunk_immediate true 16000 forwarded = Some (again, duration) /\
    Forall2 Qeq again forwarded.
Proof.
  apply (normalisation_is_idempotent 16000 [1 # 10; - (1 # 5); 0]).
  discriminate.
Defined.

(** ** The conversation window *)

Section Window.

Import pipeline.







End Window.



(** ** [strip] *)

Section Strip.

Variable drop : N -> bool.

Lemma lstrip_by_split (s : pystr) :
  exists before,
    s = before ++ lstrip_by drop s /\ Forall (fun c => drop c = true) before.
Proof.
  induction s as [|c s IH]; [exists []; split; [reflexivity | constructor] |].
  cbn. destruct (drop c) eqn:Hc.
  - destruct IH as (before & Hs & Hall). exists (c :: before).
    split; [cbn; congruence | constructor; assumption].
  - exists []. split; [reflexivity | constructor].
Qed.

Lemma lstrip_by_head (s : pystr) (c : N) (rest : pystr) :
  lstrip_by drop s = c :: rest -> drop c = false.
Proof.
  induction s as [|x s IH]; cbn; [discriminate |].
  destruct (drop x) eqn:Hx; [exact IH |]. intros [= <- _]. exact Hx.
Qed.

Lemma lstrip_by_keeps_last (s : pystr) (c : N) :
  drop c = false ->
  exists kept, lstrip_by drop (s ++ [c]) = kept ++ [c].
Proof.
  intros Hc. induction s as [|x s IH]; cbn.
  - rewrite Hc. exists []. reflexivity.
  - destruct (drop x); [exact IH |]. exists (x :: s). reflexivity.
Qed.

Lemma rstrip_by_split (s : pystr) :
  exists after,
    s = rstrip_by drop s ++ after /\ Forall (fun c => drop c = true) after.
Proof.
  unfold rstrip_by. destruct (lstrip_by_split (rev s)) as (before & Hs & Hall).
  exists (rev before). split.
  - rewrite <- rev_app_distr, <- Hs, rev_involutive. reflexivity.
  - apply Forall_rev. exact Hall.
Qed.

(** [strip_by] takes characters of [drop] off both ends and nothing else,
    and leaves none of them at either end. *)
Lemma strip_by_spec (s : pystr) :
  (exists before after,
      s = before ++ strip_by drop s ++ after /\
      Forall (fun c => drop c = true) before /\
      Forall (fun c => drop c = true) after) /\
  trimmed drop (strip_by drop s).
Proof.
  unfold strip_by. split.
  - destruct (lstrip_by_split s) as (before & Hs & Hbefore).
    destruct (rstrip_by_split (lstrip_by drop s)) as (after & Hr & Hafter).
    exists before, after. split; [| split; assumption].
    rewrite <- Hr. exact Hs.
  - destruct (lstrip_by drop s) as [|c rest] eqn:Hleft; [exact I |].
    pose proof (lstrip_by_head s c rest Hleft) as Hc.
    unfold rstrip_by. cbn [rev].
    destruct (lstrip_by_keeps_last (rev rest) c Hc) as (kept & Hkept).
    rewrite Hkept, rev_app_distr. cbn [rev app]. split; [exact Hc |].
    destruct kept as [|k kept']; [exact Hc |].
    cbn [rev]. change (c :: rev kept' ++ [k]) with ((c :: rev kept') ++ [k]).
    rewrite last_last.
    apply (lstrip_by_head (rev rest ++ [c]) k (kept' ++ [c])).
    rewrite Hkept. reflexivity.
Qed.

End Strip.

Section Recorded.

Import pipeline.

Lemma in_firstn_in {A} (n : nat) (l : list A) (x : A) :
  In x (firstn n l) -> In x l.
Proof.
  intros Hin. rewrite <- (firstn_skipn n l). apply in_or_app. left. exact Hin.
Qed.

Lemma in_skipn_in {A} (n : nat) (l : list A) (x : A) :
  In x (skipn n l) -> In x l.
Proof.
  intros Hin. rewrite <- (firstn_skipn n l). apply in_or_app. right. exact Hin.
Qed.

Lemma record_segment_in (limit : Z) (conversation : list pystr)
    (seg : Segment) (t : pystr) :
  In t (record_segment limit conversation seg) ->
  In t conversation \/
  (t = strip (text seg) /\
   (1 < List.length t)%nat /\
   (2 # 10) < end_ seg - start seg).
Proof.
  unfold record_segment.
  destruct ((1 <? List.length (strip (text seg)))%nat
            && Qgtb (end_ seg - start seg) (2 # 10)) eqn:Htest; [| auto].
  apply andb_prop in Htest. destruct Htest as [Hlong Hlasting].
  apply Nat.ltb_lt in Hlong. apply Qgtb_lt in Hlasting.
  intros Hin.
  assert (Hin' : In t (conversation ++ [strip (text seg)])).
  { destruct (_ <? _)%Z; [| exact Hin].
    unfold py_slice_from in Hin. eapply in_skipn_in. exact Hin. }
  apply in_app_or in Hin'. destruct Hin' as [Hold | [<- | []]]; auto.
Qed.

End Recorded.

(** X14.  Whatever the limit, an entry of the conversation after a call
    is an entry from before, or the text of one of the segments without the
    whitespace around it (and nothing else removed): one that lasts more
    than 0.2 s and whose text, so stripped, has at least two characters
    and neither starts nor ends with whitespace. *)
Theorem recorded_texts_are_stripped
    (limit : Z) (conversation : list pystr)
    (segments : list pipeline.Segment) (entry : pystr) :
  In entry (pipeline.transcribe_and_display limit conversation segments) ->
  In entry conversation \/
  exists seg before after,
    In seg segments /\
    pipeline.text seg = before ++ entry ++ after /\
    Forall (fun c => is_space c = true) before /\
    Forall (fun c => is_space c = true) after /\
    trimmed is_space entry /\
    (2 <= List.length entry)%nat /\
    (2 # 10) < pipeline.end_ seg - pipeline.start seg.
Proof.
  unfold pipeline.transcribe_and_display.
  revert conversation. induction segments as [|seg rest IH];
    intros conversation Hin; [left; exact Hin |].
  cbn [fold_left] in Hin. apply IH in Hin.
  destruct Hin as [Hstep | (seg' & before & after & Hseg & Hrest)].
  - apply record_segment_in in Hstep.
    destruct Hstep as [Hold | (-> & Hlong & Hlasting)]; [left; exact Hold |].
    right.
    destruct (strip_by_spec is_space (pipeline.text seg))
      as [(before & after & Htext & Hbefore & Hafter) Htrim].
    exists seg, before, after.
    split; [left; reflexivity |].
    repeat split; try assumption.
  - right. exists seg', before, after. split; [right; exact Hseg | exact Hrest].
Qed.

Lemma recorded_texts_are_stripped_witness :
  let segments :=
    [ pipeline.mkSegment (lit "  va bene ") 0 1;
      pipeline.mkSegment (lit " a ") 1 2 ] in
  exists seg before after,
    In seg segments /\
    pipeline.text seg = before ++ lit "va bene" ++ after /\
    Forall (fun c => is_space c = true) before /\
    Forall (fun c => is_space c = true) after.
Proof.
  intros segments.
  assert (Hin : In (lit "va bene")
                   (pipeline.transcribe_and_display
                      pipeline.MAX_CONVERSATION_ITEMS [] segments))
    by (left; reflexivity).
  destruct (recorded_texts_are_stripped _ _ _ _ Hin)
    as [[] | (seg & before & after & Hseg & Htext & Hbefore & Hafter & _)].
  exists seg, before, after. repeat split; assumption.
Defined.

(** ** The API key in the [.env] file *)

Section EnvFile.

Import pipeline.

Lemma str_eqb_nil (s : pystr) : str_eqb s [] = true <-> s = [].
Proof. destruct s; cbn; split; congruence. Qed.

Lemma scan_skips (preamble lines : list pystr) :
  Forall skipped preamble ->
  scan_env_lines (preamble ++ lines) = scan_env_lines lines.
Proof.
  induction 1 as [|line preamble Hline _ IH]; [reflexivity |].
  cbn [app scan_env_lines].
  destruct Hline as [Hblank | Hcomment].
  - rewrite Hblank. cbn. exact IH.
  - rewrite Hcomment. rewrite andb_false_r. exact IH.
Qed.

Lemma split_once_none (sep : N) (s : pystr) :
  ~ In sep s -> split_once sep s = None.
Proof.
  induction s as [|c s IH]; [reflexivity |]. intros Hnot. cbn.
  destruct (N.eqb_spec c sep) as [-> | _]; [exfalso; apply Hnot; left; reflexivity |].
  rewrite IH; [reflexivity |]. intros Hin. apply Hnot. right. exact Hin.
Qed.








End EnvFile.



(** X16.  One line that is neither blank nor a comment from its first
    character and that has no [=] in it makes the key unreadable: when
    only blank and comment lines come before it, the result is the empty
    string whatever follows, a well-formed key line included. *)
Theorem env_file_malformed_line
    (preamble : list pystr) (line : pystr) (rest : list pystr) :
  Forall skipped preamble ->
  strip line <> [] ->
  startswith (lit "#") line = false ->
  ~ In 61%N line ->
  pipeline.read_api_key_from_env_file (Some (preamble ++ line :: rest)) = [].
Proof.
  intros Hskip Hsome Hnocomment Hnoeq.
  unfold pipeline.read_api_key_from_env_file.
  rewrite scan_skips by exact Hskip.
  cbn [pipeline.scan_env_lines]. rewrite Hnocomment.
  destruct (str_eqb (strip line) []) eqn:Hblank;
    [apply str_eqb_nil in Hblank; congruence |].
  cbn [negb andb].
  rewrite split_once_none; [reflexivity |].
  intros Hin.
  destruct (strip_by_spec is_space line) as [(before & after & Hline & _) _].
  apply Hnoeq. rewrite Hline. apply in_or_app. right.
  apply in_or_app. left. exact Hin.
Qed.

(** A comment that is indented is such a line: the key after it is not
    read. *)
Lemma env_file_malformed_line_witness :
  pipeline.read_api_key_from_env_file
    (Some [lit "  # the key"; pipeline.env_line (lit "sk-1234")]) = [].
Proof.
  apply (env_file_malformed_line [] (lit "  # the key")).
  - constructor.
  - discriminate.
  - reflexivity.
  - cbn. intros H. repeat (destruct H as [H | H]; [discriminate H |]). exact H.
Defined.

(** * Properties of [Main.py] *)

(** ** The hotkeys *)

Section HotkeyFacts.

Variable K : Keyboard.
Implicit Types (k x : key K) (keys combo : list (key K)).

Lemma mem_in k keys : hotkeys.mem K k keys = true <-> In k keys.
Proof.
  unfold hotkeys.mem. rewrite existsb_exists. split.
  - intros (x & Hin & Heq). apply key_eqb_eq in Heq. subst. exact Hin.
  - intros Hin. exists k. split; [exact Hin | apply key_eqb_eq; reflexivity].
Qed.

Lemma add_in k x keys : In x (hotkeys.add K k keys) <-> x = k \/ In x keys.
Proof.
  unfold hotkeys.add. destruct (hotkeys.mem K k keys) eqn:Hmem.
  - apply mem_in in Hmem. split; [auto | intros [-> | H]; assumption].
  - rewrite in_app_iff. cbn. split; intros H; intuition congruence.
Qed.

Lemma issubset_spec combo keys :
  hotkeys.issubset K combo keys = true <-> (forall k, In k combo -> In k keys).
Proof.
  unfold hotkeys.issubset. rewrite forallb_forall.
  split; intros H k Hin; apply mem_in, H, Hin.
Qed.

Lemma remove_in k x keys :
  In x (hotkeys.remove K k keys) <-> In x keys /\ x <> k.
Proof.
  unfold hotkeys.remove. rewrite filter_In, negb_true_iff.
  split; intros [Hin Hne]; split; try exact Hin.
  - intros ->. rewrite (proj2 (key_eqb_eq K k k) eq_refl) in Hne. discriminate.
  - destruct (key_eqb K k x) eqn:Heq; [| reflexivity].
    apply key_eqb_eq in Heq. congruence.
Qed.

Lemma remove_absent k keys :
  ~ In k keys -> hotkeys.remove K k keys = keys.
Proof.
  intros Hnot. unfold hotkeys.remove. induction keys as [|x keys IH];
    [reflexivity |].
  cbn. destruct (key_eqb K k x) eqn:Heq.
  - apply key_eqb_eq in Heq. exfalso. apply Hnot. left. congruence.
  - cbn. rewrite IH; [reflexivity |]. intros Hin. apply Hnot. right. exact Hin.
Qed.

End HotkeyFacts.

(** X17.  A hotkey that is held fires again at every key press: when all
    keys of an entry of the table are down already, pressing any key,
    the same one again included, schedules the coroutine of the entry. *)
Theorem held_hotkey_fires_again
    (K : Keyboard) (current_keys combo : list (key K)) (pressed : key K)
    (scheduled : action) :
  In (combo, scheduled) (hotkeys.table K) ->
  hotkeys.issubset K combo current_keys = true ->
  In scheduled (snd (hotkeys.on_press K current_keys pressed)).
Proof.
  intros Hentry Hdown. unfold hotkeys.on_press. cbn [snd].
  apply in_map_iff. exists (combo, scheduled). split; [reflexivity |].
  apply filter_In. split; [exact Hentry |]. cbn [fst].
  apply issubset_spec. intros k Hin. apply add_in. right.
  revert k Hin. apply issubset_spec, Hdown.
Qed.

(** With S down, typing an X asks for suggestions once more. *)
Lemma held_hotkey_fires_again_witness :
  snd (hotkeys.on_press plain_keyboard [CharKey "s"] (CharKey "X"))
  = [on_suggestions].
Proof.
  assert (Hin : In on_suggestions
                   (snd (hotkeys.on_press plain_keyboard [CharKey "s"]
                           (CharKey "X")))).
  { apply (held_hotkey_fires_again plain_keyboard [CharKey "s"]
             [CharKey "s"] (CharKey "X") on_suggestions).
    - left. reflexivity.
    - reflexivity. }
  reflexivity.
Defined.

(** X18.  With the right-hand Ctrl and Alt down, S asks for suggestions
    twice and Q quits twice: whenever those keys are all down after a
    press, the press schedules the coroutine two times, once for the
    single key and once for the combination. *)
Theorem right_hand_combination_fires_twice
    (K : Keyboard) (current_keys : list (key K)) (pressed : key K)
    (letter : string) (scheduled : action) :
  (letter, scheduled) = ("s"%string, on_suggestions) \/
  (letter, scheduled) = ("q"%string, on_quit) ->
  let after := hotkeys.on_press K current_keys pressed in
  In (ctrl_r K) (fst after) ->
  In (alt_r K) (fst after) ->
  In (from_char K letter) (fst after) ->
  count_occ action_eq_dec (snd after) scheduled = 2%nat.
Proof.
  intros Hwhich after Hctrl Halt Hletter.
  unfold after, hotkeys.on_press in *. cbn [fst snd] in *.
  set (keys := hotkeys.add K (hotkeys.normalized K pressed) current_keys) in *.
  assert (Hsingle : hotkeys.issubset K [from_char K letter] keys = true).
  { apply issubset_spec. intros k [<- | []]. exact Hletter. }
  assert (Hcombo : hotkeys.issubset K [ctrl_r K; alt_r K; from_char K letter] keys
                   = true).
  { apply issubset_spec. intros k [<- | [<- | [<- | []]]]; assumption. }
  unfold hotkeys.table. cbn [filter fst].
  destruct Hwhich as [[= -> ->] | [= -> ->]]; rewrite Hsingle, Hcombo;
    repeat match goal with
           | |- context [if hotkeys.issubset K ?c keys then _ else _] =>
               destruct (hotkeys.issubset K c keys)
           end; reflexivity.
Qed.

Lemma right_hand_combination_fires_twice_witness :
  snd (hotkeys.on_press plain_keyboard [CtrlR; AltR] (CharKey "S"))
  = [on_suggestions; on_suggestions].
Proof.
  assert (Htwice :
    count_occ action_eq_dec
      (snd (hotkeys.on_press plain_keyboard [CtrlR; AltR] (CharKey "S")))
      on_suggestions = 2%nat).
  { apply (right_hand_combination_fires_twice plain_keyboard [CtrlR; AltR]
             (CharKey "S") "s" on_suggestions).
    - left. reflexivity.
    - left. reflexivity.
    - right. left. reflexivity.
    - right. right. left. reflexivity. }
  reflexivity.
Defined.

(** X19.  Releasing a key takes exactly that key, as it is kept, out of
    the set of keys that are down; so a press and the release of a key that
    was not down before leave the set as it was. *)
Theorem release_undoes_press
    (K : Keyboard) (current_keys : list (key K)) (k : key K) :
  (forall x, In x (hotkeys.on_release K current_keys k) <->
             In x current_keys /\ x <> hotkeys.normalized K k) /\
  (~ In (hotkeys.normalized K k) current_keys ->
   hotkeys.on_release K (fst (hotkeys.on_press K current_keys k)) k
   = current_keys).
Proof.
  split.
  - intros x. unfold hotkeys.on_release.
    destruct (hotkeys.mem K (hotkeys.normalized K k) current_keys) eqn:Hmem.
    + apply remove_in.
    + split; [| intros [H _]; exact H].
      intros Hin. split; [exact Hin |]. intros ->.
      apply mem_in in Hin. congruence.
  - intros Hnot. unfold hotkeys.on_press, hotkeys.on_release. cbn [fst].
    unfold hotkeys.add.
    destruct (hotkeys.mem K (hotkeys.normalized K k) current_keys) eqn:Hmem;
      [apply mem_in in Hmem; contradiction |].
    assert (Hnow : hotkeys.mem K (hotkeys.normalized K k)
                     (current_keys ++ [hotkeys.normalized K k]) = true)
      by (apply mem_in, in_or_app; right; left; reflexivity).
    rewrite Hnow. unfold hotkeys.remove. rewrite filter_app. cbn [filter].
    rewrite (proj2 (key_eqb_eq K _ _) eq_refl). cbn [negb].
    rewrite app_nil_r. apply remove_absent, Hnot.
Qed.

(** Shift and S: the capital letter is kept as the small one, and its
    release finds it. *)
Lemma release_undoes_press_witness :
  fst (hotkeys.on_press plain_keyboard [OtherKey 50] (CharKey "S"))
  = [OtherKey 50; CharKey "s"] /\
  hotkeys.on_release plain_keyboard
    (fst (hotkeys.on_press plain_keyboard [OtherKey 50] (CharKey "S")))
    (CharKey "S")
  = [OtherKey 50].
Proof.
  split; [reflexivity |].
  apply (proj2 (release_undoes_press plain_keyboard [OtherKey 50] (CharKey "S"))).
  cbn. intros [H | []]. discriminate H.
Defined.

(** ** The device listing and the automatic choice *)

Section Listing.

Lemma list_audio_devices_nth (devices : list DeviceInfo) (start : Z) (k : nat) :
  nth_error (list_audio_devices_from start devices) k
  = option_map (fun dev => mkListing (start + Z.of_nat k)
                             (0 <? max_input_channels dev)%Z (hint_of dev))
      (nth_error devices k).
Proof.
  revert start k. induction devices as [|dev rest IH]; intros start k.
  - destruct k; reflexivity.
  - destruct k as [|k]; cbn.
    + rewrite Z.add_0_r. reflexivity.
    + rewrite IH. destruct (nth_error rest k); cbn; [| reflexivity].
      do 2 f_equal. lia.
Qed.

Lemma first_index_before (test : DeviceInfo -> bool) (devices : list DeviceInfo)
    (start : Z) (k : nat) (dev : DeviceInfo) :
  nth_error devices k = Some dev -> test dev = true ->
  exists i, first_index test devices start = Some i /\
            (start <= i <= start + Z.of_nat k)%Z.
Proof.
  revert start k. induction devices as [|d rest IH]; intros start k Hnth Htest.
  - destruct k; discriminate.
  - cbn. destruct (test d) eqn:Hd; [exists start; split; [reflexivity | lia] |].
    destruct k as [|k]; [cbn in Hnth; congruence |].
    destruct (IH (start + 1)%Z k Hnth Htest) as (i & Hi & Hrange).
    exists i. split; [exact Hi | lia].
Qed.

Lemma hint_is_monitor (dev : DeviceInfo) :
  hint_of dev = true -> (0 < max_input_channels dev)%Z -> is_monitor dev = true.
Proof.
  unfold hint_of, is_monitor, patterns. intros Hhint Hinput.
  apply andb_true_intro. split; [| apply Z.ltb_lt, Hinput].
  cbn [existsb]. apply orb_prop in Hhint.
  destruct Hhint as [-> | ->]; [reflexivity |].
  rewrite orb_true_r. reflexivity.
Qed.

End Listing.

(** X20.  What the listing recommends, the automatic choice finds: if
    [list_audio_devices] prints its hint for a device it lists as input,
    then [find_audio_device] without a requested device comes back,
    whatever the default device is, with that device or with one before
    it in the list, and the device it comes back with passes the monitor
    test. *)
Theorem hinted_device_is_found
    (devices : list DeviceInfo) (default : option Z) (k : nat) (entry : Listing) :
  nth_error (list_audio_devices devices) k = Some entry ->
  hinted entry = true ->
  listed_as_input entry = true ->
  exists id found,
    find_audio_device None devices default = Some id /\
    (0 <= id <= listed_id entry)%Z /\
    nth_error devices (Z.to_nat id) = Some found /\
    is_monitor found = true.
Proof.
  unfold list_audio_devices. rewrite list_audio_devices_nth.
  destruct (nth_error devices k) as [dev|] eqn:Hnth; [| discriminate].
  cbn [option_map]. intros [= <-]. cbn [hinted listed_as_input listed_id].
  intros Hhint Hinput. apply Z.ltb_lt in Hinput.
  pose proof (hint_is_monitor dev Hhint Hinput) as Hmonitor.
  destruct (first_index_before is_monitor devices 0 k dev Hnth Hmonitor)
    as (id & Hfirst & Hrange).
  destruct (first_index_sound _ _ _ _ Hfirst) as (_ & found & Hfound & Hok).
  rewrite Z.sub_0_r in Hfound.
  exists id, found. rewrite find_audio_device_stages. cbn iota.
  rewrite Hfirst. repeat split; try assumption; lia.
Qed.

(** Scenario E without a request: the listing hints at the monitor, number
    2, and a monitor up to there is chosen, before the default. *)
Lemma hinted_device_is_found_witness :
  nth_error (list_audio_devices scenario_E_devices) 2
  = Some (mkListing 2 true true) /\
  exists id found,
    find_audio_device None scenario_E_devices (Some 0%Z) = Some id /\
    (0 <= id <= 2)%Z /\
    nth_error scenario_E_devices (Z.to_nat id) = Some found /\
    is_monitor found = true.
Proof.
  assert (Hentry : nth_error (list_audio_devices scenario_E_devices) 2
                   = Some (mkListing 2 true true)) by reflexivity.
  split; [exact Hentry |].
  exact (hinted_device_is_found scenario_E_devices (Some 0%Z) 2
           (mkListing 2 true true) Hentry eq_refl eq_refl).
Defined.

(** * Properties of [ImprovedNotifier.py] *)

(** X21.  A notification never asks for a window wider than 800 or taller
    than 600 pixels, nor for more than the share of the screen its dialog
    function allows; a long message (more than 15 lines or 1000
    characters) gets the text window, at least 400 pixels high when the
    screen allows that much, for at most 60 seconds; any other message
    gets the plain window for the time asked for.  A time that is not
    positive is not passed on. *)
Theorem notification_fits_the_screen
    (title message notification_type : pystr) (timeout : Z)
    (first second : notifier.Screen) :
  let dialog :=
    notifier.show_notification title message notification_type timeout
      first second in
  let long :=
    ((15 <? notifier.num_lines message)
     || (1000 <? Z.of_nat (List.length message)))%Z in
  (notifier.width dialog <= Z.min 800 (notifier.scaled_width second))%Z /\
  (notifier.height dialog <= Z.min 600 (notifier.scaled_height second))%Z /\
  notifier.kind dialog = (if long then notifier.TextInfo else notifier.Info) /\
  (long = true -> (400 <= notifier.scaled_height second)%Z ->
   (400 <= notifier.height dialog)%Z) /\
  (forall shown, notifier.timeout dialog = Some shown ->
     (0 < shown)%Z /\
     (if long then (shown <= 60)%Z /\ (shown <= timeout + 15)%Z
      else shown = timeout)).
Proof.
  intros dialog long. unfold dialog, notifier.show_notification. fold long.
  destruct long; cbn -[Z.min Z.max Z.mul Z.add Z.ltb];
    (split; [lia | split; [lia | split; [reflexivity | split]]]);
    try (intros; lia); try discriminate; intros shown.
  - destruct (Z.ltb_spec 0 (Z.min (timeout + 15) 60)); [| discriminate].
    intros [= <-]. lia.
  - destruct (Z.ltb_spec 0 timeout); [| discriminate].
    intros [= <-]. split; [assumption | reflexivity].
Qed.

(** A message of 40 lines on a screen of 1366 by 768 (scaled: 1092 by
    537): the text window, 800 by 537, for 40 seconds. *)
Example long_notification_on_a_small_screen :
  notifier.show_notification (lit "Riassunto") (repeat 10%N 39)
    (lit "suggestion") 25
    (notifier.mkScreen 1092 537) (notifier.mkScreen 1092 537)
  = notifier.mkDialog notifier.TextInfo
      ([128161%N] ++ lit " Riassunto") 800 537 (Some 40%Z).
Proof. reflexivity. Qed.

Lemma notification_fits_the_screen_witness :
  let dialog :=
    notifier.show_notification (lit "Riassunto") (repeat 10%N 39)
      (lit "suggestion") 25
      (notifier.mkScreen 1092 537) (notifier.mkScreen 1092 537) in
  (notifier.width dialog <= 800)%Z /\ (notifier.height dialog <= 537)%Z.
Proof.
  intros dialog.
  destruct (notification_fits_the_screen (lit "Riassunto") (repeat 10%N 39)
              (lit "suggestion") 25
              (notifier.mkScreen 1092 537) (notifier.mkScreen 1092 537))
    as (Hwidth & Hheight & _).
  fold dialog in Hwidth, Hheight.
  split; [| exact Hheight].
  eapply Z.le_trans; [exact Hwidth | apply Z.le_min_l].
Defined.

(** * The capture path end to end *)

Section EndToEnd.

Lemma callback_frame (self : AudioCapture) (indata : np.ndarray) (t : Q) :
  let after := callback self indata t in
  stream after = stream self /\
  is_capturing after = is_capturing self /\
  process_task after = process_task self /\
  device_id after = device_id self /\
  sample_rate after = sample_rate self.
Proof.
  callback_cases self indata; cbn; auto; split_min; cbn; auto.
Qed.

Lemma run_frame (blocks : list (np.ndarray * Q)) (self : AudioCapture) :
  let after := run self blocks in
  stream after = stream self /\
  is_capturing after = is_capturing self /\
  process_task after = process_task self /\
  device_id after = device_id self /\
  sample_rate after = sample_rate self.
Proof.
  revert self. induction blocks as [|[indata t] rest IH]; intros self;
    [cbn; auto |].
  cbn zeta. simpl run.
  destruct (IH (callback self indata t)) as (H1 & H2 & H3 & H4 & H5).
  destruct (callback_frame self indata t) as (G1 & G2 & G3 & G4 & G5).
  repeat split; congruence.
Qed.

Lemma put_drop_oldest_items {A} (q : queue.Queue A) (x y : A) :
  In y (queue.items (put_drop_oldest q x)) -> y = x \/ In y (queue.items q).
Proof.
  destruct q as [limit pending].
  unfold put_drop_oldest, queue.put_nowait, queue.get_nowait.
  cbn [queue.items queue.maxsize].
  destruct (queue.full (queue.mkQueue limit pending)).
  - destruct pending as [|oldest pending]; [auto |].
    destruct (queue.full (queue.mkQueue limit pending)); cbn [queue.items].
    + intros Hin. right. right. exact Hin.
    + intros Hin. apply in_app_or in Hin.
      destruct Hin as [Hin | [<- | []]];
        [right; right; exact Hin | left; reflexivity].
  - cbn [queue.items]. intros Hin. apply in_app_or in Hin.
    destruct Hin as [Hin | [<- | []]]; [right; exact Hin | left; reflexivity].
Qed.

Lemma run_queue_long (blocks : list (np.ndarray * Q)) (self : AudioCapture) :
  queue_long self -> queue_long (run self blocks).
Proof.
  revert self. induction blocks as [|[indata t] rest IH]; intros self Hlong;
    [exact Hlong |].
  simpl run. apply IH. unfold queue_long in *.
  assert (Hrate : forall u, duration_of (callback self indata t) u
                            = duration_of self u)
    by (intros u; apply duration_of_sample_rate, callback_sample_rate).
  apply Forall_forall. intros u Hin. rewrite Hrate.
  rewrite Forall_forall in Hlong.
  destruct (callback_queue self indata t) as [Hsame | (v & Hv & Hput)].
  - apply Hlong. rewrite <- Hsame. exact Hin.
  - rewrite Hput in Hin. apply put_drop_oldest_items in Hin.
    destruct Hin as [-> | Hold]; [exact Hv | apply Hlong, Hold].
Qed.

Lemma process_duration (is_running : bool) (rate : positive)
    (utterance : list Q) (call : list Q * Q) :
  process_audio_chunk_immediate is_running rate utterance = Some call ->
  snd call
  = inject_Z (Z.of_nat (List.length utterance)) / inject_Z (Z.pos rate).
Proof.
  unfold process_audio_chunk_immediate.
  destruct (negb is_running || (List.length utterance =? 0)%nat);
    [discriminate |].
  destruct (np.max (np.abs utterance)); [| discriminate].
  intros [= <-]. reflexivity.
Qed.

End EndToEnd.

(** X22.  As long as [stop] is not called, the transcription step is only
    ever called with utterances longer than 0.3 s: if that holds of what
    is pending, then after any blocks and any number of consumer rounds
    every call has a duration above the minimum. *)
Theorem only_long_utterances_are_transcribed
    (self : AudioCapture) (blocks : list (np.ndarray * Q)) (rounds : nat)
    (is_running : bool) (call : list Q * Q) :
  queue_long self ->
  In call (fst (process_audio_queue rounds is_running (run self blocks))) ->
  MIN_DURATION < snd call.
Proof.
  intros Hlong Hin.
  pose proof (run_queue_long blocks self Hlong) as Hafter.
  destruct (is_capturing (run self blocks)) eqn:Hcap.
  - rewrite process_audio_queue_spec in Hin by exact Hcap. cbn [fst] in Hin.
    apply in_flat_map in Hin. destruct Hin as (utterance & Hpending & Hcall).
    destruct (process_audio_chunk_immediate _ _ utterance) as [made|] eqn:Hmade;
      [| destruct Hcall].
    destruct Hcall as [<- | []].
    rewrite (process_duration _ _ _ _ Hmade).
    unfold queue_long in Hafter. rewrite Forall_forall in Hafter.
    apply Hafter. eapply in_firstn_in. exact Hpending.
  - destruct rounds as [|rounds]; cbn [process_audio_queue] in Hin;
      [destruct Hin |].
    rewrite Hcap in Hin. destruct Hin.
Qed.

(** Scenario A in a session that captures: one call, of 1.45 s. *)
Lemma only_long_utterances_are_transcribed_witness :
  let self := set_is_capturing true (init 16000) in
  map snd (fst (process_audio_queue 5 true (run self scenario_A)))
  = [23200 # 16000] /\
  Forall (fun call => MIN_DURATION < snd call)
         (fst (process_audio_queue 5 true (run self scenario_A))).
Proof.
  intros self. split; [vm_compute; reflexivity |].
  apply Forall_forall. intros call Hin.
  apply (only_long_utterances_are_transcribed self scenario_A 5 true call);
    [constructor | exact Hin].
Defined.
